(** * HEIC to PNG/JPEG converter: a shallow embedding of [convert.py]

    The development follows the layout of the script.

    - [Pillow]: the part of the imaging library that [sanitize_image]
      calls ([Image.new], [convert], [split], [paste] with a mask).
    - [sanitize_image], line by line.
    - [Py]: the [str] methods and [int] that the script calls, and the
      [suffix] and [stem] of a path.
    - Python values and dictionaries in insertion order; [Json]: the
      text that [json.dumps] writes with [indent=2] and the decoder
      behind [json.loads].
    - The world: the config file, the input folder with what opening
      each file gives, the encoder, the output folder, the lines typed
      by the user.  Functions that touch it take a world and return one.
    - [load_config], [save_config], [choose_format], [print_summary] and
      [convert_files].

    An exception is a value: [Raised e] in an [outcome].

    Limits of the model.  A [str] is a Rocq string, one character per
    code point below 256.  JSON numbers are integers.  An image has one
    of the 8-bit modes L, LA, P, PA, RGB, RGBA.  Of the terminal output
    only the messages about skipped files and empty input are kept;
    [print_summary] yields the numbers it shows, not their layout. *)

From Stdlib Require Import ZArith QArith List String Ascii Bool Lia.
From Stdlib Require Import Permutation Sorted.
From stdpp Require Import base list strings gmap.
Import ListNotations.

Local Open Scope Z_scope.

(** ** Pillow images *)

Module Pillow.

(** The 8-bit modes a decoded HEIC/HEIF file, or a palette image, can
    have.  [mode_name] gives the string that [img.mode] holds. *)
Inductive color_mode : Set :=
  | L | LA | P | PA | RGB | RGBA.

Definition mode_name (m : color_mode) : string :=
  match m with
  | L => "L" | LA => "LA" | P => "P" | PA => "PA"
  | RGB => "RGB" | RGBA => "RGBA"
  end.

Definition mode_eqb (a b : color_mode) : bool :=
  String.eqb (mode_name a) (mode_name b).

(** [m in (m1, m2, ...)] on mode strings. *)
Definition mode_in (m : color_mode) (ms : list color_mode) : bool :=
  existsb (mode_eqb m) ms.

(** Number of bands per pixel. *)
Definition bands (m : color_mode) : nat :=
  match m with
  | L | P => 1
  | LA | PA => 2
  | RGB => 3
  | RGBA => 4
  end%nat.

Definition has_alpha (m : color_mode) : bool :=
  match m with
  | LA | PA | RGBA => true
  | L | P | RGB => false
  end.

Definition pixel := list Z.

(** [size] is (width, height); [data] is row-major; [palette] holds the
    RGBA entries of a palette image and is empty otherwise. *)
Record image : Type := mkImage {
  mode : color_mode;
  size : nat * nat;
  data : list pixel;
  palette : list pixel
}.

Definition npixels (sz : nat * nat) : nat := (fst sz * snd sz)%nat.

Definition is_uint8 (v : Z) : Prop := 0 <= v < 256.

(** What every image object satisfies: one pixel per coordinate, one
    8-bit value per band, palette entries of four 8-bit values. *)
Record wf_image (img : image) : Prop := {
  wf_length : length (data img) = npixels (size img);
  wf_pixels :
    Forall (fun px => length px = bands (mode img) /\ Forall is_uint8 px)
           (data img);
  wf_palette :
    Forall (fun e => length e = 4%nat /\ Forall is_uint8 e) (palette img)
}.

(** [Image.new(mode, size, color)]. *)
Definition new (m : color_mode) (sz : nat * nat) (color : pixel) : image :=
  {| mode := m; size := sz; data := repeat color (npixels sz);
     palette := [] |}.

(** Band [k] of a pixel; a missing band reads 0. *)
Definition band (k : nat) (px : pixel) : Z := nth k px 0.

(** Palette lookup.  The palette always has 256 entries; the ones that
    were never set are black and opaque. *)
Definition palette_entry (pal : list pixel) (i : Z) : pixel :=
  nth (Z.to_nat i) pal [0; 0; 0; 255].

(** One pixel of [img.convert(target)], for the two targets the script
    asks for. *)
Definition convert_pixel (pal : list pixel) (from target : color_mode)
    (px : pixel) : pixel :=
  match target, from with
  | RGB, L | RGB, LA => [band 0 px; band 0 px; band 0 px]
  | RGB, P | RGB, PA => firstn 3 (palette_entry pal (band 0 px))
  | RGB, RGB | RGB, RGBA => firstn 3 px
  | RGBA, L => [band 0 px; band 0 px; band 0 px; 255]
  | RGBA, LA => [band 0 px; band 0 px; band 0 px; band 1 px]
  | RGBA, P => palette_entry pal (band 0 px)
  | RGBA, PA => firstn 3 (palette_entry pal (band 0 px)) ++ [band 1 px]
  | RGBA, RGB => firstn 3 px ++ [255]
  | RGBA, RGBA => px
  | _, _ => px
  end.

(** [img.convert(target)]: a new image of the same size. *)
Definition convert (img : image) (target : color_mode) : image :=
  {| mode := target; size := size img;
     data := map (convert_pixel (palette img) (mode img) target) (data img);
     palette := [] |}.

(** [img.split()]: one [L] image per band. *)
Definition split (img : image) : list image :=
  map (fun k => {| mode := L; size := size img;
                   data := map (fun px => [band k px]) (data img);
                   palette := [] |})
      (seq 0 (bands (mode img))).

(** [xs[-1]], with a default for the empty list. *)
Definition last_image (xs : list image) (d : image) : image := List.last xs d.

(** The blend of [Paste.c]: all arithmetic is on C [unsigned int], the
    result is stored in a [UINT8]. *)
Definition SHIFTFORDIV255 (a : Z) : Z := Z.shiftr (Z.shiftr a 8 + a) 8.
Definition DIV255 (a : Z) : Z := SHIFTFORDIV255 (a + 128).
Definition BLEND8 (mask in1 in2 : Z) : Z :=
  DIV255 (in1 * (255 - mask) + in2 * mask).
Definition UINT8 (v : Z) : Z := Z.land v 255.

(** One pixel of [paste] with an [L] mask into an [RGB] destination:
    the three colour bands are blended, band by band. *)
Definition paste_pixel (out inp : pixel) (a : Z) : pixel :=
  [UINT8 (BLEND8 a (band 0 out) (band 0 inp));
   UINT8 (BLEND8 a (band 1 out) (band 1 inp));
   UINT8 (BLEND8 a (band 2 out) (band 2 inp))].

Fixpoint paste_data (out inp mask : list pixel) : list pixel :=
  match out, inp, mask with
  | o :: out', i :: inp', m :: mask' =>
      paste_pixel o i (band 0 m) :: paste_data out' inp' mask'
  | _, _, _ => out
  end.

(** [bg.paste(im, mask=mask)] with no box, for an [RGB] destination and
    a source and mask of the destination's size: the destination after
    the call. *)
Definition paste (bg im mask : image) : image :=
  {| mode := mode bg; size := size bg;
     data := paste_data (data bg) (data im) (data mask);
     palette := palette bg |}.

End Pillow.

(** ** The image normalizer *)

Import Pillow.

Definition white : pixel := [255; 255; 255].

(** [sanitize_image(img)].  The local rebinding of [img] and the
    in-place update of [bg] are written as successive lets. *)
Definition sanitize_image (img : image) : image :=
  if mode_in (mode img) [RGBA; LA; P] then
    let bg := Pillow.new RGB (size img) white in
    let img := if mode_eqb (mode img) P then convert img RGBA else img in
    let bg :=
      if mode_eqb (mode img) RGBA
      then paste bg img (last_image (split img) img)
      else bg in
    bg
  else if negb (mode_eqb (mode img) RGB) then
    convert img RGB
  else img.

(** ** Python text

    A [str] is modelled as a Rocq string, one character per code point
    below 256.  Only the methods the script calls are given. *)

Module Py.

Definition code (c : ascii) : Z := Z.of_N (N_of_ascii c).

(** Characters for which [str.isspace] holds. *)
Definition isspace (c : ascii) : bool :=
  let n := code c in
  ((9 <=? n) && (n <=? 13)) || ((28 <=? n) && (n <=? 32))
  || (n =? 133) || (n =? 160).

Fixpoint lstrip (s : string) : string :=
  match s with
  | String c r => if isspace c then lstrip r else s
  | EmptyString => EmptyString
  end.

Fixpoint rstrip (s : string) : string :=
  match s with
  | String c r =>
      match rstrip r with
      | EmptyString => if isspace c then EmptyString else String c EmptyString
      | r' => String c r'
      end
  | EmptyString => EmptyString
  end.

(** [s.strip()]. *)
Definition strip (s : string) : string := rstrip (lstrip s).

Definition lower_char (c : ascii) : ascii :=
  let n := code c in
  if ((65 <=? n) && (n <=? 90))
     || ((192 <=? n) && (n <=? 222) && negb (n =? 215))
  then ascii_of_N (Z.to_N (n + 32)) else c.

(** [s.lower()]. *)
Fixpoint lower (s : string) : string :=
  match s with
  | String c r => String (lower_char c) (lower r)
  | EmptyString => EmptyString
  end.

Definition isdigit (c : ascii) : bool :=
  (48 <=? code c) && (code c <=? 57).

Definition digit_value (c : ascii) : Z := code c - 48.

(** The digits of an integer literal after its first digit: digits,
    each optionally preceded by one underscore. *)
Fixpoint int_digits (v : Z) (s : string) : option Z :=
  match s with
  | EmptyString => Some v
  | String c r =>
      if isdigit c then int_digits (10 * v + digit_value c) r
      else if Ascii.eqb c "_" then
        match r with
        | String c' r' =>
            if isdigit c' then int_digits (10 * v + digit_value c') r'
            else None
        | EmptyString => None
        end
      else None
  end.

Definition int_unsigned (s : string) : option Z :=
  match s with
  | String c r => if isdigit c then int_digits (digit_value c) r else None
  | EmptyString => None
  end.

(** [int(s)] for a [str] argument; [None] stands for [ValueError].
    Surrounding whitespace and one sign are allowed. *)
Definition int (s : string) : option Z :=
  match strip s with
  | String "-" r => option_map Z.opp (int_unsigned r)
  | String "+" r => int_unsigned r
  | t => int_unsigned t
  end.

(** Index of the last ['.'] of a name, counted from [i]. *)
Fixpoint rfind_dot (i : nat) (s : string) : option nat :=
  match s with
  | EmptyString => None
  | String c r =>
      match rfind_dot (S i) r with
      | Some j => Some j
      | None => if Ascii.eqb c "." then Some i else None
      end
  end.

(** Where [PurePath.suffix] and [PurePath.stem] cut a file name: at the
    last dot, unless that dot is the first or the last character. *)
Definition suffix_index (name : string) : option nat :=
  match rfind_dot 0 name with
  | Some i =>
      if ((0 <? i) && (i <? String.length name - 1))%nat then Some i else None
  | None => None
  end.

Definition suffix (name : string) : string :=
  match suffix_index name with
  | Some i => substring i (String.length name - i) name
  | None => EmptyString
  end.

Definition stem (name : string) : string :=
  match suffix_index name with
  | Some i => substring 0 i name
  | None => name
  end.

End Py.

(** ** Python values and dictionaries

    The values that [json.loads] builds.  Numbers are integers: a
    literal with a fraction or an exponent is outside the modelled
    fragment. *)

#[local] Set Warnings "-register-all".

Inductive value : Type :=
  | VNone
  | VBool (b : bool)
  | VInt (z : Z)
  | VStr (s : string)
  | VList (l : list value)
  | VDict (d : list (string * value)).

(** A [dict] keeps its keys in insertion order, each key once. *)
Definition dict (V : Type) : Type := list (string * V).

Section Dict.
Context {V : Type}.

(** [d.get(k)]: [None] when the key is absent. *)
Fixpoint dict_get (k : string) (d : dict V) : option V :=
  match d with
  | [] => None
  | (k', v) :: d' => if String.eqb k k' then Some v else dict_get k d'
  end.

(** [d[k] = v]: an existing key keeps its position. *)
Fixpoint dict_set (k : string) (v : V) (d : dict V) : dict V :=
  match d with
  | [] => [(k, v)]
  | (k', v') :: d' =>
      if String.eqb k k' then (k', v) :: d'
      else (k', v') :: dict_set k v d'
  end.

(** [d.update(e)], also the value of [{**d, **e}]. *)
Definition dict_update (d : dict V) (e : list (string * V)) : dict V :=
  fold_left (fun acc kv => dict_set (fst kv) (snd kv) acc) e d.

(** [dict(pairs)]. *)
Definition dict_of_pairs (pairs : list (string * V)) : dict V :=
  dict_update [] pairs.

Definition dict_keys (d : dict V) : list string := map fst d.

(** [d == e] on dictionaries does not look at the order of keys. *)
Definition dict_eq (d e : dict V) : Prop :=
  forall k, dict_get k d = dict_get k e.
End Dict.

(** ** JSON text *)

Module Json.

Definition dquote : ascii := ascii_of_N 34.
Definition backslash : ascii := ascii_of_N 92.
Definition newline : ascii := ascii_of_N 10.

Definition str1 (c : ascii) : string := String c EmptyString.

(** *** [json.dumps(v, indent=2, ensure_ascii=False)] *)

Definition hex_char (d : Z) : ascii :=
  if d <? 10 then ascii_of_N (Z.to_N (48 + d))
  else ascii_of_N (Z.to_N (87 + d)).

(** The replacement of one character inside a string literal. *)
Definition escape_char (c : ascii) : string :=
  let n := Py.code c in
  if n =? 34 then String backslash (str1 dquote)
  else if n =? 92 then String backslash (str1 backslash)
  else if n =? 8 then String backslash "b"
  else if n =? 12 then String backslash "f"
  else if n =? 10 then String backslash "n"
  else if n =? 13 then String backslash "r"
  else if n =? 9 then String backslash "t"
  else if n <? 32 then
    String backslash
      (String "u" (String "0" (String "0"
        (String (hex_char (n / 16)) (str1 (hex_char (n mod 16)))))))
  else str1 c.

Fixpoint escape (s : string) : string :=
  match s with
  | EmptyString => EmptyString
  | String c r => (escape_char c ++ escape r)%string
  end.

Definition encode_string (s : string) : string :=
  String dquote (escape s ++ str1 dquote).

Definition digit_char (d : Z) : ascii := ascii_of_N (Z.to_N (48 + d)).

(** Decimal digits of [n >= 0] in front of [acc], most significant
    first; [fuel] bounds the number of digits. *)
Fixpoint decimal (fuel : nat) (n : Z) (acc : string) : string :=
  match fuel with
  | O => acc
  | S fuel' =>
      let acc' := String (digit_char (n mod 10)) acc in
      if n / 10 =? 0 then acc' else decimal fuel' (n / 10) acc'
  end.

Definition decimal_fuel (n : Z) : nat := S (Z.to_nat (Z.log2 n)).

(** [repr] of an [int]. *)
Definition encode_int (z : Z) : string :=
  if z <? 0 then String "-" (decimal (decimal_fuel (- z)) (- z) EmptyString)
  else decimal (decimal_fuel z) z EmptyString.

Fixpoint spaces (n : nat) : string :=
  match n with
  | O => EmptyString
  | S n' => String " " (spaces n')
  end.

(** A line break followed by the indentation of nesting level [level]. *)
Definition newline_indent (level : nat) : string :=
  String newline (spaces (2 * level)).

Fixpoint join (sep : string) (items : list string) : string :=
  match items with
  | [] => EmptyString
  | [x] => x
  | x :: rest => (x ++ sep ++ join sep rest)%string
  end.

Fixpoint encode (level : nat) (v : value) : string :=
  match v with
  | VNone => "null"
  | VBool true => "true"
  | VBool false => "false"
  | VInt z => encode_int z
  | VStr s => encode_string s
  | VList [] => "[]"
  | VList l =>
      ("[" ++ newline_indent (S level)
       ++ join ("," ++ newline_indent (S level)) (map (encode (S level)) l)
       ++ newline_indent level ++ "]")%string
  | VDict [] => "{}"
  | VDict d =>
      ("{" ++ newline_indent (S level)
       ++ join ("," ++ newline_indent (S level))
            (map (fun kv => encode_string (fst kv) ++ ": "
                            ++ encode (S level) (snd kv)) d)
       ++ newline_indent level ++ "}")%string
  end.

Definition dumps (v : value) : string := encode 0 v.

(** *** [json.loads(s)]

    [None] stands for the [ValueError] that the decoder raises.  A text
    with a fraction, an exponent, [NaN] or [Infinity] in it is outside
    the modelled fragment; it is not told apart from an invalid one. *)

Definition is_ws (c : ascii) : bool :=
  let n := Py.code c in (n =? 32) || (n =? 9) || (n =? 10) || (n =? 13).

Fixpoint skip_ws (s : string) : string :=
  match s with
  | String c r => if is_ws c then skip_ws r else s
  | EmptyString => EmptyString
  end.

Definition hex_value (c : ascii) : option Z :=
  let n := Py.code c in
  if (48 <=? n) && (n <=? 57) then Some (n - 48)
  else if (97 <=? n) && (n <=? 102) then Some (n - 87)
  else if (65 <=? n) && (n <=? 70) then Some (n - 55)
  else None.

Definition hex4 (a b c d : ascii) : option Z :=
  match hex_value a, hex_value b, hex_value c, hex_value d with
  | Some x, Some y, Some z, Some w => Some (((x * 16 + y) * 16 + z) * 16 + w)
  | _, _, _, _ => None
  end.

(** The character that follows a backslash, other than [u]. *)
Definition unescape (e : ascii) : option ascii :=
  let n := Py.code e in
  if n =? 34 then Some dquote
  else if n =? 92 then Some backslash
  else if n =? 47 then Some "/"%char
  else if n =? 98 then Some (ascii_of_N 8)
  else if n =? 102 then Some (ascii_of_N 12)
  else if n =? 110 then Some (ascii_of_N 10)
  else if n =? 114 then Some (ascii_of_N 13)
  else if n =? 116 then Some (ascii_of_N 9)
  else None.

Definition cons_char (c : ascii) (r : option (string * string))
    : option (string * string) :=
  match r with
  | Some (s, rest) => Some (String c s, rest)
  | None => None
  end.

(** The body of a string literal, after its opening quote: the decoded
    string and the text after the closing quote.  An escape above
    [ÿ] names a character outside the modelled alphabet. *)
Fixpoint scanstring (s : string) : option (string * string) :=
  match s with
  | EmptyString => None
  | String c r =>
      if Ascii.eqb c dquote then Some (EmptyString, r)
      else if Ascii.eqb c backslash then
        match r with
        | String e r' =>
            if Ascii.eqb e "u" then
              match r' with
              | String h1 (String h2 (String h3 (String h4 r''))) =>
                  match hex4 h1 h2 h3 h4 with
                  | Some n =>
                      if n <? 256
                      then cons_char (ascii_of_N (Z.to_N n)) (scanstring r'')
                      else None
                  | None => None
                  end
              | _ => None
              end
            else
              match unescape e with
              | Some ch => cons_char ch (scanstring r')
              | None => None
              end
        | EmptyString => None
        end
      else if Py.code c <? 32 then None
      else cons_char c (scanstring r)
  end.

(** The longest run of digits at the front of [s], read in base 10
    after the value [v]. *)
Fixpoint scan_digits (v : Z) (s : string) : Z * string :=
  match s with
  | String c r =>
      if Py.isdigit c then scan_digits (10 * v + Py.digit_value c) r
      else (v, s)
  | EmptyString => (v, EmptyString)
  end.

(** Does a fraction or an exponent follow? *)
Definition float_follows (s : string) : bool :=
  match s with
  | String c _ =>
      Ascii.eqb c "." || Ascii.eqb c "e" || Ascii.eqb c "E"
  | EmptyString => false
  end.

(** An integer without sign: [0], or a digit from 1 to 9 and more
    digits. *)
Definition scan_natural (s : string) : option (Z * string) :=
  match s with
  | String c r =>
      if Ascii.eqb c "0" then Some (0, r)
      else if Py.isdigit c then Some (scan_digits 0 s)
      else None
  | EmptyString => None
  end.

Definition scan_number (s : string) : option (value * string) :=
  let (neg, s1) :=
    match s with
    | String c r => if Ascii.eqb c "-" then (true, r) else (false, s)
    | EmptyString => (false, s)
    end in
  match scan_natural s1 with
  | Some (v, r) =>
      if float_follows r then None
      else Some (VInt (if neg then - v else v), r)
  | None => None
  end.

(** [s] starts with [p]: the rest of [s] after [p]. *)
Fixpoint strip_prefix (p s : string) : option string :=
  match p, s with
  | EmptyString, _ => Some s
  | String a p', String b s' =>
      if Ascii.eqb a b then strip_prefix p' s' else None
  | String _ _, EmptyString => None
  end.

Fixpoint parse_value (fuel : nat) (s : string) : option (value * string) :=
  match fuel with
  | O => None
  | S fuel' =>
      match s with
      | EmptyString => None
      | String c r =>
          if Ascii.eqb c dquote then
            match scanstring r with
            | Some (str, r') => Some (VStr str, r')
            | None => None
            end
          else if Ascii.eqb c "{" then
            match skip_ws r with
            | String "}" r' => Some (VDict [], r')
            | s1 => parse_members fuel' s1 []
            end
          else if Ascii.eqb c "[" then
            match skip_ws r with
            | String "]" r' => Some (VList [], r')
            | s1 => parse_elements fuel' s1 []
            end
          else
            match strip_prefix "null" s, strip_prefix "true" s,
                  strip_prefix "false" s with
            | Some r', _, _ => Some (VNone, r')
            | _, Some r', _ => Some (VBool true, r')
            | _, _, Some r' => Some (VBool false, r')
            | None, None, None => scan_number s
            end
      end
  end
with parse_members (fuel : nat) (s : string) (acc : list (string * value))
    : option (value * string) :=
  match fuel with
  | O => None
  | S fuel' =>
      match s with
      | EmptyString => None
      | String c r =>
          if Ascii.eqb c dquote then
            match scanstring r with
            | Some (key, r1) =>
                match skip_ws r1 with
                | String ":" r2 =>
                    match parse_value fuel' (skip_ws r2) with
                    | Some (v, r3) =>
                        match skip_ws r3 with
                        | String "}" r4 =>
                            Some (VDict (dict_of_pairs (rev ((key, v) :: acc))),
                                  r4)
                        | String "," r4 =>
                            parse_members fuel' (skip_ws r4) ((key, v) :: acc)
                        | _ => None
                        end
                    | None => None
                    end
                | _ => None
                end
            | None => None
            end
          else None
      end
  end
with parse_elements (fuel : nat) (s : string) (acc : list value)
    : option (value * string) :=
  match fuel with
  | O => None
  | S fuel' =>
      match parse_value fuel' s with
      | Some (v, r1) =>
          match skip_ws r1 with
          | String "]" r2 => Some (VList (rev (v :: acc)), r2)
          | String "," r2 => parse_elements fuel' (skip_ws r2) (v :: acc)
          | _ => None
          end
      | None => None
      end
  end.

(** Two units of fuel per character are enough: a call on a text of
    [n] characters needs no more than [2 * n + 1] of them (see
    [loads_fuel] below). *)
Definition loads (s : string) : option value :=
  match parse_value (S (2 * String.length s)) (skip_ws s) with
  | Some (v, r) =>
      match skip_ws r with
      | EmptyString => Some v
      | String _ _ => None
      end
  | None => None
  end.

End Json.

(** ** Exceptions

    [except Exception] catches an [Exception] and lets any other
    [BaseException] ([KeyboardInterrupt], [SystemExit]) through; a bare
    [except] catches both.  Each carries its message. *)

Inductive exn : Type :=
  | Exception (msg : string)
  | BaseException (msg : string).

Inductive outcome (A : Type) : Type :=
  | Ok (a : A)
  | Raised (e : exn).
Arguments Ok {A} a.
Arguments Raised {A} e.

#[global] Instance outcome_ret : MRet outcome := fun _ a => Ok a.
#[global] Instance outcome_bind : MBind outcome := fun _ _ f m =>
  match m with
  | Ok a => f a
  | Raised e => Raised e
  end.

(** [d[k]]: [KeyError] when the key is absent. *)
Definition subscript {V : Type} (d : dict V) (k : string) : outcome V :=
  match dict_get k d with
  | Some v => Ok v
  | None => Raised (Exception "KeyError")
  end.

(** ** The world the script runs in *)

(** The file at [CONFIG_PATH]. *)
Inductive file_state : Type :=
  | Absent
  | Unreadable
  | Text (s : string).

(** What the script learns about one entry of the input folder:
    [decoded] is the result of [Image.open(fp)] followed by
    [img.load()]. *)
Record input_file : Type := {
  name : string;
  is_file : bool;
  st_size : outcome Z;
  decoded : outcome image
}.

(** The keyword arguments of [img.save]. *)
Inductive save_args : Type :=
  | SaveJPEG (quality : value) (optimize : bool)
  | SavePNG (optimize : bool) (compress_level : Z).

(** [save_image path args img] is the encoder: the number of bytes it
    writes to [path], or the exception it raises.  [output_dir] maps the
    names in the output folder to their sizes; a save that raises is
    taken to leave the folder as it was.  [stdin] holds the lines that
    [input()] will return; [terminal] collects the messages about
    skipped files and empty input, without colour codes and line
    breaks. *)
Record world : Type := {
  config_file : file_state;
  config_writable : bool;
  input_dir : list input_file;
  save_image : string -> save_args -> image -> outcome Z;
  output_dir : gmap string Z;
  stdin : list string;
  terminal : list string
}.

Definition set_config_file (w : world) (f : file_state) : world :=
  {| config_file := f; config_writable := config_writable w;
     input_dir := input_dir w; save_image := save_image w;
     output_dir := output_dir w; stdin := stdin w; terminal := terminal w |}.

Definition set_stdin (w : world) (l : list string) : world :=
  {| config_file := config_file w; config_writable := config_writable w;
     input_dir := input_dir w; save_image := save_image w;
     output_dir := output_dir w; stdin := l; terminal := terminal w |}.

Definition set_output (w : world) (out : gmap string Z) (t : list string)
    : world :=
  {| config_file := config_file w; config_writable := config_writable w;
     input_dir := input_dir w; save_image := save_image w;
     output_dir := out; stdin := stdin w; terminal := t |}.

(** [input(prompt)]: the next line, or [EOFError]. *)
Definition input (w : world) : outcome string * world :=
  match stdin w with
  | line :: rest => (Ok line, set_stdin w rest)
  | [] => (Raised (Exception "EOFError"), w)
  end.

(** ** Config store *)

Definition default_config : dict value :=
  [("output_format"%string, VStr "png"); ("jpeg_quality"%string, VInt 95)].

(** [load_config()].  Any exception of the [try] body (an unreadable
    file, text that is not JSON, JSON that is not an object) ends in the
    defaults. *)
Definition load_config (w : world) : dict value :=
  let default := default_config in
  match config_file w with
  | Absent => default
  | Unreadable => default
  | Text s =>
      match Json.loads s with
      | Some (VDict d) => dict_update default d
      | Some _ => default
      | None => default
      end
  end.

(** [save_config(cfg)]: a failed write is ignored. *)
Definition save_config (cfg : dict value) (w : world) : world :=
  if config_writable w
  then set_config_file w (Text (Json.dumps (VDict cfg)))
  else w.

(** ** Format selection *)

(** A number as [int] sees it; [bool] is a subclass of [int]. *)
Definition as_int (v : value) : option Z :=
  match v with
  | VInt z => Some z
  | VBool b => Some (if b then 1 else 0)
  | _ => None
  end.

(** [b if b < a else a], the value of [min(a, b)]; [TypeError] when the
    two do not compare. *)
Definition py_min (a b : value) : outcome value :=
  match as_int a, as_int b with
  | Some x, Some y => Ok (if y <? x then b else a)
  | _, _ => Raised (Exception "TypeError")
  end.

(** [b if b > a else a], the value of [max(a, b)]. *)
Definition py_max (a b : value) : outcome value :=
  match as_int a, as_int b with
  | Some x, Some y => Ok (if y >? x then b else a)
  | _, _ => Raised (Exception "TypeError")
  end.

(** The body of the [try] at the quality prompt. *)
Definition quality_try (cfg : dict value) (q_input : string) : outcome value :=
  q ← (match q_input with
       | String _ _ =>
           match Py.int q_input with
           | Some z => Ok (VInt z)
           | None => Raised (Exception "ValueError")
           end
       | EmptyString => subscript cfg "jpeg_quality"
       end);
  m ← py_min (VInt 100) q;
  py_max (VInt 1) m.

(** The [try]/[except] at the quality prompt: the value bound to [q]. *)
Definition choose_quality (cfg : dict value) (q_input : string) : outcome value :=
  match quality_try cfg q_input with
  | Ok q => Ok q
  | Raised _ => subscript cfg "jpeg_quality"
  end.

(** The [while True] loop of [choose_format], by recursion on the lines
    still to be read: [Ok None] is the quit, [Ok (Some cfg)] leaves the
    loop by [break].  Each result comes with the lines left unread. *)
Fixpoint choose_loop (cfg : dict value) (lines : list string)
    : outcome (option (dict value)) * list string :=
  match lines with
  | [] => (Raised (Exception "EOFError"), [])
  | line :: rest =>
      let choice := Py.lower (Py.strip line) in
      if String.eqb choice "q" then (Ok None, rest)
      else if String.eqb choice "1" then
        match subscript cfg "jpeg_quality" with
        | Raised e => (Raised e, rest)
        | Ok _ =>
            match rest with
            | [] => (Raised (Exception "EOFError"), [])
            | qline :: rest' =>
                let q_input := Py.strip qline in
                match choose_quality cfg q_input with
                | Ok q =>
                    (Ok (Some (dict_update cfg
                                 [("output_format"%string, VStr "jpeg");
                                  ("jpeg_quality"%string, q)])),
                     rest')
                | Raised e => (Raised e, rest')
                end
            end
        end
      else if String.eqb choice "2" then
        (Ok (Some (dict_set "output_format" (VStr "png") cfg)), rest)
      else choose_loop cfg rest
  end.

(** [choose_format()]. *)
Definition choose_format (w : world) : outcome (option (dict value)) * world :=
  let cfg := load_config w in
  match choose_loop cfg (stdin w) with
  | (Ok (Some cfg'), rest) => (Ok (Some cfg'), save_config cfg' (set_stdin w rest))
  | (r, rest) => (r, set_stdin w rest)
  end.

(** ** Reporter *)

Record conversion_record : Type := {
  filename : string;
  original_size : Z;
  converted_size : Z
}.

(** [sorted(l, key=key, reverse=True)]: a stable sort, largest key
    first; records with equal keys keep their order. *)
Fixpoint insert_desc {A : Type} (key : A -> Z) (x : A) (l : list A) : list A :=
  match l with
  | [] => [x]
  | y :: l' =>
      if key x <? key y then y :: insert_desc key x l' else x :: y :: l'
  end.

Definition sorted_desc {A : Type} (key : A -> Z) (l : list A) : list A :=
  fold_right (insert_desc key) [] l.

(** [a / b] on integers, as an exact fraction: the rounding to a float
    is left out. *)
Definition truediv (a b : Z) : outcome Q :=
  if b =? 0 then Raised (Exception "ZeroDivisionError")
  else Ok (inject_Z a / inject_Z b)%Q.

(** The ratio shown next to a record. *)
Definition ratio (s : conversion_record) : outcome Q :=
  if negb (original_size s =? 0)
  then truediv (converted_size s) (original_size s)
  else Ok (inject_Z 1).

Record top_entry : Type := {
  top_record : conversion_record;
  top_ratio : Q
}.

Inductive direction : Set := Grew | Shrank.

Inductive format_line : Type :=
  | FormatJPEG (quality : option value)
  | FormatPNG.

(** What [print_summary] puts on the screen, before the sizes are made
    readable and the ratio is cut to two decimals. *)
Record summary : Type := {
  files_converted : nat;
  format_shown : format_line;
  total_orig : Z;
  total_conv : Z;
  sign : direction;
  change : Z;
  top3 : list top_entry
}.

Definition sum_sizes (f : conversion_record -> Z) (stats : list conversion_record)
    : Z :=
  fold_left (fun acc s => acc + f s) stats 0.

(** The [for s in top3] loop. *)
Fixpoint top_entries (l : list conversion_record) : outcome (list top_entry) :=
  match l with
  | [] => Ok []
  | s :: l' =>
      r ← ratio s;
      rest ← top_entries l';
      Ok ({| top_record := s; top_ratio := r |} :: rest)
  end.

(** [print_summary(stats, output_format, jpeg_quality)]. *)
Definition print_summary (stats : list conversion_record)
    (output_format : value) (jpeg_quality : option value) : outcome summary :=
  let total_orig := sum_sizes original_size stats in
  let total_conv := sum_sizes converted_size stats in
  let delta := total_conv - total_orig in
  shown ← (match stats with
           | _ :: _ =>
               top_entries (firstn 3 (sorted_desc converted_size stats))
           | [] => Ok []
           end);
  Ok {| files_converted := length stats;
        format_shown :=
          match output_format with
          | VStr "jpeg" => FormatJPEG jpeg_quality
          | _ => FormatPNG
          end;
        total_orig := total_orig;
        total_conv := total_conv;
        sign := if delta >? 0 then Grew else Shrank;
        change := Z.abs delta;
        top3 := shown |}.

(** ** Converter loop *)

Definition eligible (f : input_file) : bool :=
  is_file f
  && (let sfx := Py.lower (Py.suffix (name f)) in
      String.eqb sfx ".heic" || String.eqb sfx ".heif").

Definition is_jpeg (fmt : value) : bool :=
  match fmt with
  | VStr s => String.eqb s "jpeg"
  | _ => false
  end.

(** The arguments of [img.save] for the chosen format. *)
Definition save_request (fmt quality : value) : save_args :=
  if is_jpeg fmt then SaveJPEG quality true else SavePNG false 1.

(** [output_dir / (fp.stem + ext)], as a name in the output folder. *)
Definition out_path (ext : string) (fp : input_file) : string :=
  (Py.stem (name fp) ++ ext)%string.

(** The body of the [try] for one file: the output folder after it and
    the record to append. *)
Definition convert_one (save : string -> save_args -> image -> outcome Z)
    (fmt quality : value) (ext : string) (out : gmap string Z)
    (fp : input_file) : outcome (gmap string Z * conversion_record) :=
  orig_size ← st_size fp;
  img ← decoded fp;
  let img := sanitize_image img in
  written ← save (out_path ext fp) (save_request fmt quality) img;
  let out := <[out_path ext fp := written]> out in
  match out !! out_path ext fp with
  | Some sz =>
      Ok (out, {| filename := name fp; original_size := orig_size;
                  converted_size := sz |})
  | None => Raised (Exception "FileNotFoundError")
  end.

Definition error_line (fp : input_file) (msg : string) : string :=
  ("Error " ++ name fp ++ ": " ++ msg)%string.

(** The [for fp in pbar] loop. *)
Fixpoint convert_loop (save : string -> save_args -> image -> outcome Z)
    (fmt quality : value) (ext : string) (files : list input_file)
    (out : gmap string Z) (stats : list conversion_record)
    (term : list string)
    : outcome (list conversion_record) * gmap string Z * list string :=
  match files with
  | [] => (Ok stats, out, term)
  | fp :: rest =>
      match convert_one save fmt quality ext out fp with
      | Ok (out', r) =>
          convert_loop save fmt quality ext rest out' (stats ++ [r]) term
      | Raised (Exception msg) =>
          convert_loop save fmt quality ext rest out stats
                       (term ++ [error_line fp msg])
      | Raised (BaseException msg) => (Raised (BaseException msg), out, term)
      end
  end.

Definition no_files_message : string :=
  "No .heic/.heif files in 'input' folder.".

(** [convert_files(config)]. *)
Definition convert_files (config : dict value) (w : world)
    : outcome (list conversion_record) * world :=
  let files := List.filter eligible (input_dir w) in
  match files with
  | [] =>
      let w := set_output w (output_dir w) (terminal w ++ [no_files_message]) in
      match input w with
      | (Ok _, w') => (Ok [], w')
      | (Raised e, w') => (Raised e, w')
      end
  | _ :: _ =>
      match subscript config "output_format" with
      | Raised e => (Raised e, w)
      | Ok fmt =>
          let quality :=
            match dict_get "jpeg_quality" config with
            | Some q => q
            | None => VInt 95
            end in
          let ext := if is_jpeg fmt then ".jpg"%string else ".png"%string in
          match fmt with
          | VStr _ =>
              let '(r, out, term) :=
                convert_loop (save_image w) fmt quality ext files
                             (output_dir w) [] (terminal w) in
              (r, set_output w out term)
          | _ => (Raised (Exception "AttributeError"), w)
          end
      end
  end.

(** ** Main loop *)

(** [main()].  The [while True] loop takes one unit of fuel per round;
    a round reads at least one line, so [main] gives the loop one more
    unit than there are lines.  The result comes with the summaries
    shown so far.  The header and the lines [Exiting.] and
    [Ready for next conversion.] are not recorded. *)
Fixpoint main_loop (fuel : nat) (w : world) (shown : list summary)
    : option (outcome unit * list summary * world) :=
  match fuel with
  | O => None
  | S fuel' =>
      match choose_format w with
      | (Raised e, w1) => Some (Raised e, shown, w1)
      | (Ok None, w1) => Some (Ok tt, shown, w1)
      | (Ok (Some config), w1) =>
          match convert_files config w1 with
          | (Raised e, w2) => Some (Raised e, shown, w2)
          | (Ok stats, w2) =>
              match
                (match stats with
                 | _ :: _ =>
                     fmt ← subscript config "output_format";
                     s ← print_summary stats fmt
                           (dict_get "jpeg_quality" config);
                     Ok (shown ++ [s])
                 | [] => Ok shown
                 end)
              with
              | Raised e => Some (Raised e, shown, w2)
              | Ok shown' =>
                  match input w2 with
                  | (Raised e, w3) => Some (Raised e, shown', w3)
                  | (Ok _, w3) => main_loop fuel' w3 shown'
                  end
              end
          end
      end
  end.

Definition main (w : world) : option (outcome unit * list summary * world) :=
  main_loop (S (length (stdin w))) w [].

(** * Vocabulary of the properties

    What the statements below are written with: the predicates of the
    spec, and a few concrete inputs. *)

(** ** Images *)

(** What the spec asks for an image with transparency: the image,
    expanded to RGBA, blended onto a white canvas of its size with its
    alpha band as the mask. *)
Definition flatten_on_white (img : image) : image :=
  let rgba := convert img RGBA in
  paste (Pillow.new RGB (size img) white) rgba (last_image (split rgba) rgba).

Definition alpha_band (img : image) : image :=
  {| mode := L; size := size img;
     data := map (fun px => [band 3 px]) (data img); palette := [] |}.

Definition la_opaque_black : image :=
  {| mode := LA; size := (1, 1)%nat; data := [[0; 255]]; palette := [] |}.

Definition rgba_sample (a : Z) : image :=
  {| mode := RGBA; size := (2, 1)%nat;
     data := [[10; 20; 30; a]; [200; 100; 0; a]]; palette := [] |}.

Definition rgb_sample : image :=
  {| mode := RGB; size := (1, 2)%nat;
     data := [[1; 2; 3]; [250; 251; 252]]; palette := [] |}.

(** ** Configurations *)


(** A configuration in the sense of the spec: the two keys, a format
    that is [png] or [jpeg], an integer quality from 1 to 100. *)
Definition valid_config (cfg : dict value) : Prop :=
  exists fmt q,
    (fmt = "png"%string \/ fmt = "jpeg"%string) /\ 1 <= q <= 100
    /\ (cfg = [("output_format"%string, VStr fmt); ("jpeg_quality"%string, VInt q)]
        \/ cfg = [("jpeg_quality"%string, VInt q); ("output_format"%string, VStr fmt)]).




(** A menu answer that is none of [1], [2], [q]. *)
Definition invalid_choice (line : string) : bool :=
  let choice := Py.lower (Py.strip line) in
  negb (String.eqb choice "q" || String.eqb choice "1" || String.eqb choice "2").

Definition sample_world (file : file_state) (lines : list string) : world :=
  {| config_file := file; config_writable := true; input_dir := [];
     save_image := fun _ _ _ => Ok 1000; output_dir := ∅;
     stdin := lines; terminal := [] |}.

(** The text [{"jpeg_quality": 500}]. *)
Definition quality_500_text : string :=
  ("{" ++ Json.encode_string "jpeg_quality" ++ ": 500}")%string.

(** ** JSON text *)

(** A value that is not a container. *)
Definition scalar (v : value) : bool :=
  match v with
  | VNone | VBool _ | VInt _ | VStr _ => true
  | VList _ | VDict _ => false
  end.

(** Text after a number: it must not go on with a digit, a fraction or
    an exponent. *)
Definition delimited (rest : string) : bool :=
  match rest with
  | String c _ => negb (Py.isdigit c) && negb (Json.float_follows rest)
  | EmptyString => true
  end.

(** One entry of an object on nesting level 0, and the text between
    two entries. *)
Definition member (kv : string * value) : string :=
  (Json.encode_string (fst kv) ++ ": " ++ Json.encode 1 (snd kv))%string.

Definition separator : string := ("," ++ Json.newline_indent 1)%string.

(** ** Records *)

(** The ratio that the spec gives for a record. *)
Definition spec_ratio (s : conversion_record) : Q :=
  if original_size s =? 0 then inject_Z 1
  else (inject_Z (converted_size s) / inject_Z (original_size s))%Q.

(** Largest first. *)
Definition desc {A : Type} (key : A -> Z) (a b : A) : Prop := key b <= key a.

Definition sample_stats : list conversion_record :=
  [ {| filename := "a.heic"; original_size := 500; converted_size := 300 |};
    {| filename := "b.heic"; original_size := 0; converted_size := 900 |};
    {| filename := "c.heic"; original_size := 100; converted_size := 300 |};
    {| filename := "d.heic"; original_size := 200; converted_size := 50 |} ].

(** ** Batches *)

(** A file that is read, decoded and encoded without an exception. *)
Definition valid_file (save : string -> save_args -> image -> outcome Z)
    (fmt quality : value) (ext : string) (f : input_file) : Prop :=
  exists n img sz,
    st_size f = Ok n /\ decoded f = Ok img
    /\ save (out_path ext f) (save_request fmt quality) (sanitize_image img)
       = Ok sz.

(** A file that cannot be read, or whose content cannot be decoded. *)
Definition corrupt_file (f : input_file) : Prop :=
  (exists msg, st_size f = Raised (Exception msg))
  \/ (exists n msg, st_size f = Ok n /\ decoded f = Raised (Exception msg)).

(** The record that belongs to a converted file. *)
Definition record_of (save : string -> save_args -> image -> outcome Z)
    (fmt quality : value) (ext : string) (f : input_file)
    (r : conversion_record) : Prop :=
  filename r = name f
  /\ st_size f = Ok (original_size r)
  /\ exists img, decoded f = Ok img
       /\ save (out_path ext f) (save_request fmt quality) (sanitize_image img)
          = Ok (converted_size r).

(** The quality and the extension that [convert_files] works with. *)
Definition config_quality (config : dict value) : value :=
  match dict_get "jpeg_quality" config with
  | Some q => q
  | None => VInt 95
  end.

Definition config_ext (fmt : value) : string :=
  if is_jpeg fmt then ".jpg"%string else ".png"%string.

Definition file_a : input_file :=
  {| name := "a.heic"; is_file := true; st_size := Ok 500000;
     decoded := Ok rgb_sample |}.

Definition file_notes : input_file :=
  {| name := "notes.txt"; is_file := true; st_size := Ok 12;
     decoded := Raised (Exception "cannot identify image file") |}.

Definition file_broken : input_file :=
  {| name := "broken.heic"; is_file := true; st_size := Ok 10;
     decoded := Raised (Exception "cannot identify image file") |}.

Definition file_b : input_file :=
  {| name := "b.HEIF"; is_file := true; st_size := Ok 300000;
     decoded := Ok (rgba_sample 0) |}.

Definition sample_batch : list input_file :=
  [file_a; file_notes; file_broken; file_b].

Definition sample_batch_world : world :=
  {| config_file := Absent; config_writable := true;
     input_dir := sample_batch;
     save_image := fun _ _ _ => Ok 1000; output_dir := ∅;
     stdin := []; terminal := [] |}.

(** ** Values and their text *)

(** Every dictionary inside the value has each key once. *)
Fixpoint wf_value (v : value) : Prop :=
  match v with
  | VList l => fold_right (fun x acc => wf_value x /\ acc) True l
  | VDict d =>
      List.NoDup (dict_keys d)
      /\ fold_right (fun kv acc => wf_value (snd kv) /\ acc) True d
  | _ => True
  end.








(** ** Blending *)

(** The blend of one band onto white, as a fraction rounded to the
    nearest integer (a half goes up): [(255 * (255 - a) + c * a) / 255]. *)
Definition round_blend (c a : Z) : Z :=
  (2 * (255 * (255 - a) + c * a) + 255) / 510.

(** One pixel composited onto white with its own last band as alpha. *)
Definition composite (px : pixel) : pixel :=
  map (fun c => round_blend c (band 3 px)) (firstn 3 px).

Definition palette_sample : image :=
  {| mode := P; size := (3, 1)%nat; data := [[0]; [1]; [2]];
     palette := [[10; 20; 30; 255]; [200; 100; 0; 0]; [0; 0; 0; 128]] |}.

(** ** Summaries *)

(** The sizes that a summary shows, in the order shown. *)
Definition shown_sizes (s : summary) : list Z :=
  map (fun e => converted_size (top_record e)) (top3 s).

(** ** Names and attempts *)

(** An extension that the converter accepts, in any mix of cases. *)
Definition heif_extension (e : string) : Prop :=
  Py.lower e = ".heic"%string \/ Py.lower e = ".heif"%string.

(** What the [try] body does with one file, apart from the output
    folder: the original size and the number of bytes written. *)
Definition attempt (save : string -> save_args -> image -> outcome Z)
    (fmt quality : value) (ext : string) (fp : input_file) : outcome (Z * Z) :=
  orig_size ← st_size fp;
  img ← decoded fp;
  written ← save (out_path ext fp) (save_request fmt quality) (sanitize_image img);
  Ok (orig_size, written).

(** The records, the error lines and the output folder that a batch
    leads to, each read off the attempts. *)
Definition records_of (save : string -> save_args -> image -> outcome Z)
    (fmt quality : value) (ext : string) (files : list input_file)
    : list conversion_record :=
  flat_map (fun fp =>
              match attempt save fmt quality ext fp with
              | Ok (orig, written) =>
                  [{| filename := name fp; original_size := orig;
                      converted_size := written |}]
              | Raised _ => []
              end) files.

Definition errors_of (save : string -> save_args -> image -> outcome Z)
    (fmt quality : value) (ext : string) (files : list input_file)
    : list string :=
  flat_map (fun fp =>
              match attempt save fmt quality ext fp with
              | Raised (Exception msg) => [error_line fp msg]
              | _ => []
              end) files.

Definition outputs_of (save : string -> save_args -> image -> outcome Z)
    (fmt quality : value) (ext : string) (files : list input_file)
    (out : gmap string Z) : gmap string Z :=
  fold_left (fun o fp =>
               match attempt save fmt quality ext fp with
               | Ok (_, written) => <[out_path ext fp := written]> o
               | Raised _ => o
               end) files out.

(** No attempt ends in an exception that [except Exception] lets
    through. *)
Definition no_interrupt (save : string -> save_args -> image -> outcome Z)
    (fmt quality : value) (ext : string) (files : list input_file) : Prop :=
  Forall (fun fp => forall msg,
            attempt save fmt quality ext fp <> Raised (BaseException msg)) files.


(** A second file with the stem of [file_a]. *)
Definition file_a_heif : input_file :=
  {| name := "a.heif"; is_file := true; st_size := Ok 700;
     decoded := Ok (rgba_sample 0) |}.

(** A folder and an encoder that writes as many bytes as the first band
    of the first pixel says. *)
Definition sample_folder_world (files : list input_file) : world :=
  {| config_file := Absent; config_writable := true;
     input_dir := files;
     save_image := fun _ _ img => Ok (band 0 (nth 0 (data img) []));
     output_dir := ∅; stdin := []; terminal := [] |}.

(** ** Runs of the main loop *)

(** The answer that leaves the program. *)
Definition quit_answer (line : string) : Prop :=
  Py.lower (Py.strip line) = "q"%string.

(** The lines that a step read: [w'] holds what is left of them. *)
Definition reads (w w' : world) (used : list string) : Prop :=
  stdin w = used ++ stdin w'.

(** The exceptions that can end [main]. *)
Definition end_of_input_or_interrupt (e : exn) : Prop :=
  e = Exception "EOFError" \/ exists msg, e = BaseException msg.

Definition sample_run_world (lines : list string) : world :=
  {| config_file := Absent; config_writable := true;
     input_dir := sample_batch;
     save_image := fun _ _ _ => Ok 1000; output_dir := ∅;
     stdin := lines; terminal := [] |}.

(** * Properties *)

(** ** Image normalizer *)

Section Blend.

Lemma UINT8_small v : 0 <= v < 256 -> UINT8 v = v.
Proof.
  intros Hv. unfold UINT8.
  change 255 with (Z.ones 8). rewrite Z.land_ones by lia.
  apply Z.mod_small. change (2 ^ 8) with 256. lia.
Qed.

Lemma UINT8_range v : is_uint8 (UINT8 v).
Proof.
  unfold UINT8, is_uint8.
  change 255 with (Z.ones 8). rewrite Z.land_ones by lia.
  change (2 ^ 8) with 256. apply Z.mod_pos_bound. lia.
Qed.

Lemma DIV255_mul255 x : 0 <= x < 256 -> DIV255 (x * 255) = x.
Proof.
  intros Hx. unfold DIV255, SHIFTFORDIV255.
  rewrite !Z.shiftr_div_pow2 by lia. change (2 ^ 8) with 256.
  assert (Hq : (x * 255 + 128) / 256 = if x <=? 128 then x else x - 1).
  { destruct (Z.leb_spec x 128);
      symmetry; apply (Z.div_unique _ 256 _ (if x <=? 128 then 128 - x else 384 - x));
      destruct (Z.leb_spec x 128); lia. }
  rewrite Hq.
  destruct (Z.leb_spec x 128); symmetry.
  - apply (Z.div_unique _ 256 _ 128); lia.
  - apply (Z.div_unique _ 256 _ 127); lia.
Qed.

(** A transparent source pixel leaves the destination as it is. *)
Lemma BLEND8_mask_0 out inp : 0 <= out < 256 -> BLEND8 0 out inp = out.
Proof.
  intros H. unfold BLEND8.
  replace (out * (255 - 0) + inp * 0) with (out * 255) by lia.
  now apply DIV255_mul255.
Qed.

(** An opaque source pixel replaces the destination. *)
Lemma BLEND8_mask_255 out inp : 0 <= inp < 256 -> BLEND8 255 out inp = inp.
Proof.
  intros H. unfold BLEND8.
  replace (out * (255 - 255) + inp * 255) with (inp * 255) by lia.
  now apply DIV255_mul255.
Qed.

Lemma paste_pixel_transparent px : paste_pixel white px 0 = white.
Proof.
  unfold paste_pixel, white, band; cbn [nth].
  rewrite !BLEND8_mask_0 by lia. reflexivity.
Qed.

Lemma paste_pixel_opaque r g b a :
  Forall is_uint8 [r; g; b; a] -> paste_pixel white [r; g; b; a] 255 = [r; g; b].
Proof.
  intros H.
  apply Forall_cons_1 in H as [Hr H].
  apply Forall_cons_1 in H as [Hg H].
  apply Forall_cons_1 in H as [Hb _].
  unfold is_uint8 in *.
  unfold paste_pixel, band; cbn [nth].
  rewrite !BLEND8_mask_255 by assumption.
  rewrite !UINT8_small by assumption. reflexivity.
Qed.

Lemma paste_pixel_wf out inp a :
  length (paste_pixel out inp a) = 3%nat /\ Forall is_uint8 (paste_pixel out inp a).
Proof.
  split; [reflexivity |].
  unfold paste_pixel. repeat constructor; apply UINT8_range.
Qed.

End Blend.

Section Normalizer.

Lemma last_split_RGBA img : mode img = RGBA ->
  last_image (split img) img = alpha_band img.
Proof. intros H. unfold last_image, split. rewrite H. reflexivity. Qed.

Lemma paste_data_length out inp mask :
  length (paste_data out inp mask) = length out.
Proof.
  revert inp mask. induction out as [| o out IH]; intros [| i inp] [| m mask];
    cbn; try reflexivity.
  now rewrite IH.
Qed.

(** Pasting onto a fresh canvas, pixel by pixel. *)
Lemma paste_data_canvas (d : list pixel) :
  paste_data (repeat white (length d)) d (map (fun px => [band 3 px]) d)
  = map (fun px => paste_pixel white px (band 3 px)) d.
Proof.
  induction d as [| px d IH]; [reflexivity |].
  cbn [length repeat map paste_data]. now rewrite IH.
Qed.

Lemma paste_data_pixels out inp mask :
  Forall (fun px => length px = 3%nat /\ Forall is_uint8 px) out ->
  Forall (fun px => length px = 3%nat /\ Forall is_uint8 px)
         (paste_data out inp mask).
Proof.
  revert inp mask. induction out as [| o out IH]; intros inp mask Hout.
  - destruct inp, mask; constructor.
  - apply Forall_cons_1 in Hout as [Ho Hout].
    destruct inp as [| i inp]; [now constructor |].
    destruct mask as [| m mask]; [now constructor |].
    cbn. constructor; [apply paste_pixel_wf | now apply IH].
Qed.

Lemma sanitize_image_RGBA img : mode img = RGBA ->
  sanitize_image img
  = paste (Pillow.new RGB (size img) white) img (alpha_band img).
Proof.
  intros H. unfold sanitize_image. rewrite H. cbn.
  rewrite H. cbn. now rewrite last_split_RGBA.
Qed.

Lemma sanitize_image_P img : mode img = P ->
  sanitize_image img = flatten_on_white img.
Proof. intros H. unfold sanitize_image. rewrite H. reflexivity. Qed.

Lemma sanitize_image_LA img : mode img = LA ->
  sanitize_image img = Pillow.new RGB (size img) white.
Proof. intros H. unfold sanitize_image. rewrite H. cbn. now rewrite H. Qed.

Lemma sanitize_image_RGB img : mode img = RGB -> sanitize_image img = img.
Proof. intros H. unfold sanitize_image. now rewrite H. Qed.

Lemma sanitize_image_other img : mode img = L \/ mode img = PA ->
  sanitize_image img = convert img RGB.
Proof. intros [H | H]; unfold sanitize_image; now rewrite H. Qed.

Lemma sanitize_image_mode img : mode (sanitize_image img) = RGB.
Proof.
  unfold sanitize_image.
  destruct (mode img) eqn:Hm; cbn; rewrite ?Hm; cbn; reflexivity.
Qed.

Lemma sanitize_image_size img : size (sanitize_image img) = size img.
Proof.
  unfold sanitize_image.
  destruct (mode img) eqn:Hm; cbn; rewrite ?Hm; cbn; reflexivity.
Qed.

Lemma repeat_white_pixels n :
  Forall (fun px => length px = 3%nat /\ Forall is_uint8 px) (repeat white n).
Proof.
  induction n; cbn; constructor; auto.
  split; [reflexivity |]. unfold white, is_uint8. repeat constructor; lia.
Qed.

Lemma palette_entry_wf pal i :
  Forall (fun e => length e = 4%nat /\ Forall is_uint8 e) pal ->
  length (palette_entry pal i) = 4%nat /\ Forall is_uint8 (palette_entry pal i).
Proof.
  intros Hpal. unfold palette_entry.
  destruct (@nth_in_or_default pixel (Z.to_nat i) pal [0; 0; 0; 255])
    as [Hin | ->].
  - rewrite Forall_forall in Hpal.
    apply (Hpal _ (proj2 (list_elem_of_In _ _) Hin)).
  - split; [reflexivity |]. unfold is_uint8. repeat constructor; lia.
Qed.

Lemma band_uint8 k px : Forall is_uint8 px -> is_uint8 (band k px).
Proof.
  intros H. unfold band.
  destruct (nth_in_or_default k px 0) as [Hin | ->].
  - rewrite Forall_forall in H. apply H, list_elem_of_In, Hin.
  - unfold is_uint8. lia.
Qed.

Lemma firstn3_wf (e : pixel) : length e = 4%nat -> Forall is_uint8 e ->
  length (firstn 3 e) = 3%nat /\ Forall is_uint8 (firstn 3 e).
Proof.
  intros Hl He.
  destruct e as [| a [| b [| c [| d [| ? ?]]]]]; try discriminate.
  cbn. split; [reflexivity |].
  apply Forall_cons_1 in He as [Ha He].
  apply Forall_cons_1 in He as [Hb He].
  apply Forall_cons_1 in He as [Hc _].
  repeat first [assumption | constructor].
Qed.

Lemma convert_RGB_pixels img : wf_image img -> mode img = L \/ mode img = PA ->
  Forall (fun px => length px = 3%nat /\ Forall is_uint8 px)
         (data (convert img RGB)).
Proof.
  intros [_ Hpx Hpal] Hm. cbn [convert data].
  apply Forall_map. eapply Forall_impl; [exact Hpx |].
  intros px [_ Hb]. cbn beta.
  destruct Hm as [-> | ->]; cbn [convert_pixel].
  - split; [reflexivity |].
    repeat first [now apply band_uint8 | constructor].
  - destruct (palette_entry_wf (palette img) (band 0 px) Hpal) as [Hl He].
    now apply firstn3_wf.
Qed.

(** The result of [sanitize_image] is again an image. *)
Lemma sanitize_image_wf img : wf_image img -> wf_image (sanitize_image img).
Proof.
  intros Hwf. destruct (mode img) eqn:Hm.
  - rewrite sanitize_image_other by auto.
    constructor; cbn [convert data size palette mode bands].
    + rewrite length_map. apply Hwf.
    + apply (convert_RGB_pixels img Hwf). auto.
    + constructor.
  - rewrite sanitize_image_LA by assumption.
    constructor; cbn; [apply repeat_length | apply repeat_white_pixels | constructor].
  - rewrite sanitize_image_P by assumption. unfold flatten_on_white.
    constructor; cbn [paste Pillow.new data size palette mode bands].
    + rewrite paste_data_length. apply repeat_length.
    + apply paste_data_pixels, repeat_white_pixels.
    + constructor.
  - rewrite sanitize_image_other by auto.
    constructor; cbn [convert data size palette mode bands].
    + rewrite length_map. apply Hwf.
    + apply (convert_RGB_pixels img Hwf). auto.
    + constructor.
  - rewrite sanitize_image_RGB by assumption. exact Hwf.
  - rewrite sanitize_image_RGBA by assumption.
    constructor; cbn [paste Pillow.new data size palette mode bands].
    + rewrite paste_data_length. apply repeat_length.
    + apply paste_data_pixels, repeat_white_pixels.
    + constructor.
Qed.

End Normalizer.

Lemma rgba_sample_wf a : 0 <= a < 256 -> wf_image (rgba_sample a).
Proof.
  intros Ha. constructor; cbn; [reflexivity | | constructor].
  repeat (constructor; [split; [reflexivity |] |]);
    try (unfold is_uint8; repeat first [lia | constructor]).
Qed.

(** C1 (the code departs from it).  An image in mode LA is not blended
    onto the canvas: [sanitize_image] hands back the blank white canvas.
    For the one-pixel image that is black and opaque the result is a
    white pixel, where blending with the alpha band as the mask keeps
    the black pixel. *)
Theorem sanitize_image_LA_blank :
  data (sanitize_image la_opaque_black) = [[255; 255; 255]]
  /\ data (flatten_on_white la_opaque_black) = [[0; 0; 0]].
Proof. split; reflexivity. Qed.

(** C5.  An RGBA image that is transparent everywhere becomes the solid
    white image of its size; an RGBA image that is opaque everywhere
    becomes the RGB image with its three colour bands unchanged. *)
Theorem sanitize_image_alpha_extremes (img : image) :
  wf_image img -> mode img = RGBA ->
  (Forall (fun px => band 3 px = 0) (data img) ->
   sanitize_image img = Pillow.new RGB (size img) white)
  /\ (Forall (fun px => band 3 px = 255) (data img) ->
      mode (sanitize_image img) = RGB
      /\ size (sanitize_image img) = size img
      /\ data (sanitize_image img) = map (firstn 3) (data img)).
Proof.
  intros [Hlen Hpx _] Hm.
  rewrite sanitize_image_RGBA by assumption.
  unfold paste, Pillow.new, alpha_band; cbn [mode size data palette].
  rewrite <- Hlen, paste_data_canvas. split; intros Ha.
  - f_equal. clear Hlen Hpx.
    induction (data img) as [| px d IH]; [reflexivity |].
    apply Forall_cons_1 in Ha as [Hpx Ha].
    cbn [map length repeat]. rewrite Hpx, paste_pixel_transparent.
    f_equal. now apply IH.
  - split; [reflexivity |]. split; [reflexivity |].
    rewrite Hm in Hpx. clear Hlen.
    induction (data img) as [| px d IH]; [reflexivity |].
    apply Forall_cons_1 in Ha as [Hpa Ha].
    apply Forall_cons_1 in Hpx as [[Hl Hb] Hpx].
    cbn [map]. rewrite Hpa. f_equal; [| now apply IH].
    destruct px as [| r [| g [| b [| a [| ? ?]]]]]; try discriminate.
    now rewrite paste_pixel_opaque.
Qed.

Lemma sanitize_image_alpha_extremes_witness :
  sanitize_image (rgba_sample 0) = Pillow.new RGB (2, 1)%nat white
  /\ data (sanitize_image (rgba_sample 255)) = [[10; 20; 30]; [200; 100; 0]].
Proof.
  split.
  - apply (sanitize_image_alpha_extremes (rgba_sample 0));
      [apply rgba_sample_wf; lia | reflexivity |].
    repeat constructor.
  - apply (sanitize_image_alpha_extremes (rgba_sample 255));
      [apply rgba_sample_wf; lia | reflexivity |].
    repeat constructor.
Defined.

(** C6.  For every image, so in particular one in mode RGB, RGBA, L, P
    or PA, the result of [sanitize_image] is in mode RGB, which has no
    alpha band, and has the size of the input; it is again a well-formed
    image, with three 8-bit bands per pixel. *)
Theorem sanitize_image_plain_rgb (img : image) :
  wf_image img ->
  mode (sanitize_image img) = RGB
  /\ has_alpha (mode (sanitize_image img)) = false
  /\ size (sanitize_image img) = size img
  /\ wf_image (sanitize_image img).
Proof.
  intros Hwf. rewrite sanitize_image_mode, sanitize_image_size.
  repeat split; try reflexivity; now apply sanitize_image_wf.
Qed.

Lemma sanitize_image_plain_rgb_witness :
  mode (sanitize_image (rgba_sample 128)) = RGB
  /\ has_alpha (mode (sanitize_image (rgba_sample 128))) = false
  /\ size (sanitize_image (rgba_sample 128)) = (2, 1)%nat
  /\ wf_image (sanitize_image (rgba_sample 128)).
Proof.
  apply (sanitize_image_plain_rgb (rgba_sample 128)).
  apply rgba_sample_wf. lia.
Defined.

(** C7.  [sanitize_image] is idempotent, and an image in mode RGB is
    returned as it is. *)
Theorem sanitize_image_idempotent (x : image) :
  sanitize_image (sanitize_image x) = sanitize_image x
  /\ (mode x = RGB -> sanitize_image x = x).
Proof.
  split; [| apply sanitize_image_RGB].
  apply sanitize_image_RGB, sanitize_image_mode.
Qed.

Lemma sanitize_image_idempotent_witness :
  sanitize_image (sanitize_image rgb_sample) = sanitize_image rgb_sample
  /\ sanitize_image rgb_sample = rgb_sample.
Proof.
  destruct (sanitize_image_idempotent rgb_sample) as [Hi Hr].
  split; [exact Hi | apply Hr; reflexivity].
Defined.

(** ** Dictionaries *)

Section DictFacts.
Context {V : Type}.
Implicit Types (d e : dict V) (k : string) (v : V).

Lemma dict_get_set_eq k v d : dict_get k (dict_set k v d) = Some v.
Proof.
  induction d as [| [k' v'] d IH]; cbn.
  - now rewrite String.eqb_refl.
  - destruct (String.eqb k k') eqn:E; cbn; rewrite E; [reflexivity | exact IH].
Qed.

Lemma dict_get_set_ne k k' v d :
  k <> k' -> dict_get k' (dict_set k v d) = dict_get k' d.
Proof.
  intros Hne. induction d as [| [k0 v0] d IH]; cbn.
  - destruct (String.eqb_spec k' k); [congruence | reflexivity].
  - destruct (String.eqb_spec k k0) as [-> | Hk]; cbn.
    + destruct (String.eqb_spec k' k0); [congruence | reflexivity].
    + now rewrite IH.
Qed.

Lemma dict_get_set k k' v d :
  dict_get k' (dict_set k v d)
  = if String.eqb k' k then Some v else dict_get k' d.
Proof.
  destruct (String.eqb_spec k' k) as [-> | Hne].
  - apply dict_get_set_eq.
  - apply dict_get_set_ne. congruence.
Qed.

(** After [d.update(e)] a key has the value of its last pair in [e],
    or else the one it had in [d]. *)
Lemma dict_get_update k d e :
  dict_get k (dict_update d e)
  = match dict_get k (rev e) with
    | Some v => Some v
    | None => dict_get k d
    end.
Proof.
  induction e as [| [k' v'] e IH] using rev_ind; [reflexivity |].
  unfold dict_update in *. rewrite fold_left_app, rev_app_distr. cbn.
  rewrite dict_get_set, IH. now destruct (String.eqb k k').
Qed.

Lemma dict_set_keys_in k v d :
  In k (dict_keys d) -> dict_keys (dict_set k v d) = dict_keys d.
Proof.
  induction d as [| [k' v'] d IH]; cbn; [tauto |].
  intros [-> | Hin].
  - now rewrite String.eqb_refl.
  - destruct (String.eqb k k'); cbn; [reflexivity |].
    f_equal. now apply IH.
Qed.

Lemma dict_set_keys_fresh k v d :
  ~ In k (dict_keys d) -> dict_set k v d = d ++ [(k, v)].
Proof.
  induction d as [| [k' v'] d IH]; cbn; [reflexivity |].
  intros Hn. destruct (String.eqb_spec k k') as [-> | Hk]; [tauto |].
  f_equal. apply IH. tauto.
Qed.

(** Building a dictionary from pairs with distinct keys keeps the
    pairs as they are. *)
Lemma dict_update_fresh d e :
  List.NoDup (dict_keys (d ++ e)) -> dict_update d e = d ++ e.
Proof.
  revert d. induction e as [| [k v] e IH]; intros d Hnd.
  - cbn. now rewrite app_nil_r.
  - cbn [dict_update fold_left fst snd].
    change (fold_left _ e ?x) with (dict_update x e).
    assert (Hfresh : ~ In k (dict_keys d)).
    { unfold dict_keys in *. rewrite map_app in Hnd. cbn in Hnd.
      apply List.NoDup_remove_2 in Hnd. rewrite in_app_iff in Hnd. tauto. }
    rewrite dict_set_keys_fresh by assumption.
    rewrite IH; rewrite <- app_assoc; [reflexivity | exact Hnd].
Qed.

Lemma dict_of_pairs_nodup (l : list (string * V)) :
  List.NoDup (dict_keys l) -> dict_of_pairs l = l.
Proof. intros H. unfold dict_of_pairs. now rewrite dict_update_fresh. Qed.

Lemma dict_set_nodup k v d :
  List.NoDup (dict_keys d) -> List.NoDup (dict_keys (dict_set k v d)).
Proof.
  intros Hnd. destruct (in_dec string_dec k (dict_keys d)) as [Hin | Hn].
  - now rewrite dict_set_keys_in.
  - rewrite dict_set_keys_fresh by assumption.
    unfold dict_keys in *. rewrite map_app. cbn.
    apply List.NoDup_rev in Hnd. rewrite <- (rev_involutive (_ ++ _)).
    apply List.NoDup_rev. rewrite rev_app_distr. cbn.
    constructor; [now rewrite <- in_rev | exact Hnd].
Qed.

Lemma dict_update_nodup d e :
  List.NoDup (dict_keys d) -> List.NoDup (dict_keys (dict_update d e)).
Proof.
  revert d. induction e as [| [k v] e IH]; intros d Hnd; [exact Hnd |].
  cbn [dict_update fold_left fst snd].
  change (fold_left _ e ?x) with (dict_update x e).
  now apply IH, dict_set_nodup.
Qed.


End DictFacts.

(** ** JSON objects read from text *)

Ltac case_matches :=
  repeat match goal with
    | H : context [match ?x with _ => _ end] |- _ =>
        destruct x eqn:?; try discriminate H
    | H : context [if ?b then _ else _] |- _ =>
        destruct b eqn:?; try discriminate H
    end.

Section LoadsFacts.
Import Json.





End LoadsFacts.

(** ** The decoder's fuel *)

Section Fuel.
Import Json.

Lemma skip_ws_length s : (String.length (skip_ws s) <= String.length s)%nat.
Proof.
  induction s as [| c s IH]; cbn [skip_ws]; [lia |].
  destruct (is_ws c); cbn [String.length]; lia.
Qed.

Lemma cons_char_shorter c o (n : nat) x r :
  (forall x r, o = Some (x, r) -> (String.length r < n)%nat) ->
  cons_char c o = Some (x, r) -> (String.length r < n)%nat.
Proof.
  intros H. destruct o as [[y t] |]; [| discriminate].
  intros [= <- <-]. now apply (H y).
Qed.

Lemma scanstring_shorter : forall n s x r,
  (String.length s <= n)%nat -> scanstring s = Some (x, r) -> (String.length r < String.length s)%nat.
Proof.
  induction n as [| n IH]; intros s x r Hn Hs.
  - destruct s; [discriminate | cbn in Hn; lia].
  - destruct s as [| c s]; [discriminate |].
    cbn [scanstring] in Hs. cbn [String.length] in *.
    destruct (Ascii.eqb c dquote); [injection Hs as <- <-; lia |].
    destruct (Ascii.eqb c backslash).
    + destruct s as [| e s]; [discriminate |]. cbn [String.length] in *.
      destruct (Ascii.eqb e "u").
      * destruct s as [| h1 [| h2 [| h3 [| h4 s]]]]; try discriminate.
        cbn [String.length] in *.
        destruct (hex4 h1 h2 h3 h4) as [k |]; [| discriminate].
        destruct (Z.ltb k 256); [| discriminate].
        eapply cons_char_shorter in Hs; [| intros y t Hy; eapply IH; [| exact Hy]; lia].
        lia.
      * destruct (unescape e); [| discriminate].
        eapply cons_char_shorter in Hs; [| intros y t Hy; eapply IH; [| exact Hy]; lia].
        lia.
    + destruct (Z.ltb (Py.code c) 32); [discriminate |].
      eapply cons_char_shorter in Hs; [| intros y t Hy; eapply IH; [| exact Hy]; lia].
      lia.
Qed.

Lemma scan_digits_length s : forall v, (String.length (snd (scan_digits v s)) <= String.length s)%nat.
Proof.
  induction s as [| c s IH]; intros v; cbn [scan_digits]; [cbn; lia |].
  destruct (Py.isdigit c); cbn [String.length snd]; [| lia].
  specialize (IH (10 * v + Py.digit_value c)%Z). lia.
Qed.

Lemma scan_number_shorter s v r :
  scan_number s = Some (v, r) -> (String.length r < String.length s)%nat.
Proof.
  unfold scan_number, scan_natural. intros H.
  destruct s as [| c s]; [discriminate |]. cbn [String.length].
  destruct (Ascii.eqb c "-").
  - destruct s as [| d s]; [discriminate |]. cbn [String.length].
    destruct (Ascii.eqb d "0").
    + destruct (float_follows s); [discriminate |]. injection H as _ <-. lia.
    + destruct (Py.isdigit d) eqn:Hd; [| discriminate].
      cbn [scan_digits] in H. rewrite Hd in H.
      pose proof (scan_digits_length s (10 * 0 + Py.digit_value d)%Z) as Hl.
      destruct (scan_digits _ s) as [k t]. cbn [snd] in Hl.
      destruct (float_follows t); [discriminate |]. injection H as _ <-. lia.
  - destruct (Ascii.eqb c "0").
    + destruct (float_follows s); [discriminate |]. injection H as _ <-. lia.
    + destruct (Py.isdigit c) eqn:Hd; [| discriminate].
      cbn [scan_digits] in H. rewrite Hd in H.
      pose proof (scan_digits_length s (10 * 0 + Py.digit_value c)%Z) as Hl.
      destruct (scan_digits _ s) as [k t]. cbn [snd] in Hl.
      destruct (float_follows t); [discriminate |]. injection H as _ <-. lia.
Qed.

Lemma strip_prefix_length p : forall s r,
  strip_prefix p s = Some r -> (String.length r + String.length p = String.length s)%nat.
Proof.
  induction p as [| a p IH]; intros s r H; cbn [strip_prefix] in H.
  - injection H as <-. cbn. lia.
  - destruct s as [| b s]; [discriminate |].
    destruct (Ascii.eqb a b); [| discriminate].
    apply IH in H. cbn [String.length]. lia.
Qed.

Lemma skip_ws_cons a c b : skip_ws a = String c b -> (String.length b < String.length a)%nat.
Proof.
  intros H. pose proof (skip_ws_length a) as Hl. rewrite H in Hl.
  cbn [String.length] in Hl. lia.
Qed.

Ltac ascii_cases a :=
  destruct a as [[] [] [] [] [] [] [] []]; cbv iota in *; try discriminate.

(** What is left after a value is shorter than the text it was read
    from. *)
Lemma parse_shorter fuel :
  (forall s v r, parse_value fuel s = Some (v, r) -> (String.length r < String.length s)%nat)
  /\ (forall s acc v r,
        parse_members fuel s acc = Some (v, r) -> (String.length r < String.length s)%nat)
  /\ (forall s acc v r,
        parse_elements fuel s acc = Some (v, r) -> (String.length r < String.length s)%nat).
Proof.
  induction fuel as [| fuel (IHv & IHm & IHe)];
    [repeat split; intros; discriminate |].
  split; [| split].
  - intros s v r H. cbn [parse_value] in H.
    destruct s as [| c t]; [discriminate |]. cbn [String.length].
    destruct (Ascii.eqb c dquote).
    { destruct (scanstring t) as [[str r'] |] eqn:Hs; [| discriminate].
      injection H as _ <-. apply (scanstring_shorter (String.length t)) in Hs; lia. }
    destruct (Ascii.eqb c "{").
    { destruct (skip_ws t) as [| a u] eqn:Hsk.
      - apply IHm in H. cbn in H. lia.
      - apply skip_ws_cons in Hsk.
        ascii_cases a;
          try (apply IHm in H; cbn [String.length] in H; lia).
        injection H as _ <-. lia. }
    destruct (Ascii.eqb c "[").
    { destruct (skip_ws t) as [| a u] eqn:Hsk.
      - apply IHe in H. cbn in H. lia.
      - apply skip_ws_cons in Hsk.
        ascii_cases a;
          try (apply IHe in H; cbn [String.length] in H; lia).
        injection H as _ <-. lia. }
    destruct (strip_prefix "null" (String c t)) as [r1 |] eqn:H1.
    { injection H as _ <-. apply strip_prefix_length in H1.
      cbn [String.length] in H1. lia. }
    destruct (strip_prefix "true" (String c t)) as [r2 |] eqn:H2.
    { injection H as _ <-. apply strip_prefix_length in H2.
      cbn [String.length] in H2. lia. }
    destruct (strip_prefix "false" (String c t)) as [r3 |] eqn:H3.
    { injection H as _ <-. apply strip_prefix_length in H3.
      cbn [String.length] in H3. lia. }
    apply scan_number_shorter in H. cbn [String.length] in H. lia.
  - intros s acc v r H. cbn [parse_members] in H.
    destruct s as [| c t]; [discriminate |]. cbn [String.length].
    destruct (Ascii.eqb c dquote); [| discriminate].
    destruct (scanstring t) as [[key r1] |] eqn:Hs; [| discriminate].
    apply (scanstring_shorter (String.length t)) in Hs; [| lia].
    destruct (skip_ws r1) as [| a r2] eqn:Hk1; [discriminate |].
    apply skip_ws_cons in Hk1. ascii_cases a.
    pose proof (skip_ws_length r2) as Hk2.
    destruct (parse_value fuel (skip_ws r2)) as [[v' r3] |] eqn:Hv;
      [| discriminate].
    apply IHv in Hv.
    destruct (skip_ws r3) as [| b r4] eqn:Hk3; [discriminate |].
    apply skip_ws_cons in Hk3. pose proof (skip_ws_length r4).
    ascii_cases b; [injection H as _ <-; lia | apply IHm in H; lia].
  - intros s acc v r H. cbn [parse_elements] in H.
    destruct (parse_value fuel s) as [[v' r1] |] eqn:Hv; [| discriminate].
    apply IHv in Hv.
    destruct (skip_ws r1) as [| b r2] eqn:Hk; [discriminate |].
    apply skip_ws_cons in Hk. pose proof (skip_ws_length r2).
    ascii_cases b; [injection H as _ <-; lia | apply IHe in H; lia].
Qed.

(** One more unit of fuel changes nothing once there are two per character. *)
Lemma parse_fuel_step fuel :
  (forall s, (2 * String.length s + 1 <= fuel)%nat ->
     parse_value (S fuel) s = parse_value fuel s)
  /\ (forall s acc, (2 * String.length s + 1 <= fuel)%nat ->
        parse_members (S fuel) s acc = parse_members fuel s acc)
  /\ (forall s acc, (2 * String.length s + 2 <= fuel)%nat ->
        parse_elements (S fuel) s acc = parse_elements fuel s acc).
Proof.
  induction fuel as [| fuel (IHv & IHm & IHe)];
    [repeat split; intros; lia |].
  split; [| split].
  - intros s Hf. cbn [parse_value].
    destruct s as [| c t]; [reflexivity |]. cbn [String.length] in Hf.
    destruct (Ascii.eqb c dquote); [reflexivity |].
    pose proof (skip_ws_length t) as Hsk.
    destruct (Ascii.eqb c "{").
    { destruct (skip_ws t) as [| a u] eqn:Hk; [apply IHm; cbn; lia |].
      cbn [String.length] in Hsk.
      ascii_cases a; try reflexivity; apply IHm; cbn [String.length]; lia. }
    destruct (Ascii.eqb c "[").
    { destruct (skip_ws t) as [| a u] eqn:Hk; [apply IHe; cbn; lia |].
      cbn [String.length] in Hsk.
      ascii_cases a; try reflexivity; apply IHe; cbn [String.length]; lia. }
    reflexivity.
  - intros s acc Hf. cbn [parse_members].
    destruct s as [| c t]; [reflexivity |]. cbn [String.length] in Hf.
    destruct (Ascii.eqb c dquote); [| reflexivity].
    destruct (scanstring t) as [[key r1] |] eqn:Hs; [| reflexivity].
    apply (scanstring_shorter (String.length t)) in Hs; [| lia].
    destruct (skip_ws r1) as [| a r2] eqn:Hk1; [reflexivity |].
    apply skip_ws_cons in Hk1. pose proof (skip_ws_length r2) as Hk2.
    ascii_cases a; try reflexivity.
    rewrite IHv by lia.
    destruct (parse_value fuel (skip_ws r2)) as [[v' r3] |] eqn:Hv;
      [| reflexivity].
    apply (parse_shorter fuel) in Hv.
    destruct (skip_ws r3) as [| b r4] eqn:Hk3; [reflexivity |].
    apply skip_ws_cons in Hk3. pose proof (skip_ws_length r4).
    ascii_cases b; try reflexivity. apply IHm. lia.
  - intros s acc Hf. cbn [parse_elements].
    rewrite IHv by lia.
    destruct (parse_value fuel s) as [[v' r1] |] eqn:Hv; [| reflexivity].
    apply (parse_shorter fuel) in Hv.
    destruct (skip_ws r1) as [| b r2] eqn:Hk; [reflexivity |].
    apply skip_ws_cons in Hk. pose proof (skip_ws_length r2).
    ascii_cases b; try reflexivity. apply IHe. lia.
Qed.

(** The decoder never gives up for want of fuel: with any amount above
    two per character the result is the same. *)
Lemma parse_value_fuel s k :
  parse_value (S (2 * String.length s) + k) s = parse_value (S (2 * String.length s)) s.
Proof.
  induction k as [| k IH]; [now rewrite Nat.add_0_r |].
  rewrite Nat.add_succ_r, <- IH.
  apply (parse_fuel_step (S (2 * String.length s) + k)). lia.
Qed.

Lemma loads_fuel s k :
  parse_value (S (2 * String.length s) + k) (skip_ws s)
  = parse_value (S (2 * String.length s)) (skip_ws s).
Proof.
  pose proof (skip_ws_length s) as Hl.
  replace (S (2 * String.length s) + k)%nat
    with (S (2 * String.length (skip_ws s)) + (2 * (String.length s - String.length (skip_ws s)) + k))%nat
    by lia.
  rewrite parse_value_fuel.
  replace (S (2 * String.length s))
    with (S (2 * String.length (skip_ws s)) + 2 * (String.length s - String.length (skip_ws s)))%nat
    by lia.
  now rewrite parse_value_fuel.
Qed.

End Fuel.

(** ** Config store and format selection *)

Section ConfigStore.

Lemma default_config_quality :
  dict_get "jpeg_quality" default_config = Some (VInt 95).
Proof. reflexivity. Qed.

Lemma load_config_object w s o :
  config_file w = Text s -> Json.loads s = Some (VDict o) ->
  load_config w = dict_update default_config o.
Proof. intros Hf Hl. unfold load_config. now rewrite Hf, Hl. Qed.

Lemma load_config_default w :
  (forall s o, config_file w = Text s -> Json.loads s <> Some (VDict o)) ->
  load_config w = default_config.
Proof.
  intros H. unfold load_config.
  destruct (config_file w) as [| | s] eqn:Hf; try reflexivity.
  specialize (H s). destruct (Json.loads s) as [[] |]; try reflexivity.
  now destruct (H d).
Qed.

(** The keys of the defaults are always there after a load. *)
Lemma load_config_has_quality w :
  exists v, dict_get "jpeg_quality" (load_config w) = Some v.
Proof.
  unfold load_config.
  destruct (config_file w) as [| | s]; try (eexists; reflexivity).
  destruct (Json.loads s) as [[] |]; try (eexists; reflexivity).
  rewrite dict_get_update.
  destruct (dict_get _ (rev d)); eexists; reflexivity.
Qed.






End ConfigStore.






(** C10.  When the user, after any number of invalid answers, picks
    PNG, [choose_format] returns and saves the loaded configuration with
    [output_format] set to [png]: every other key, [jpeg_quality] among
    them, has the value it had when loaded. *)
Theorem choose_format_png_keeps_quality (w : world)
    (pre : list string) (line : string) (rest : list string) :
  stdin w = pre ++ line :: rest ->
  forallb invalid_choice pre = true ->
  Py.lower (Py.strip line) = "2"%string ->
  let cfg := load_config w in
  let cfg' := dict_set "output_format" (VStr "png") cfg in
  choose_format w = (Ok (Some cfg'), save_config cfg' (set_stdin w rest))
  /\ dict_get "jpeg_quality" cfg' = dict_get "jpeg_quality" cfg
  /\ (forall k, k <> "output_format"%string -> dict_get k cfg' = dict_get k cfg)
  /\ dict_get "output_format" cfg' = Some (VStr "png").
Proof.
  intros Hin Hpre Hline cfg cfg'.
  assert (Hloop : choose_loop cfg (pre ++ line :: rest) = (Ok (Some cfg'), rest)).
  { clear Hin. induction pre as [| p pre IH]; cbn [app choose_loop].
    - now rewrite Hline.
    - cbn [forallb] in Hpre. apply andb_prop in Hpre as [Hp Hpre].
      unfold invalid_choice in Hp. apply negb_true_iff in Hp.
      apply orb_false_elim in Hp as [Hp H2].
      apply orb_false_elim in Hp as [Hq H1].
      rewrite Hq, H1, H2. now apply IH. }
  repeat split.
  - unfold choose_format. fold cfg. now rewrite Hin, Hloop.
  - apply dict_get_set_ne. discriminate.
  - intros k Hk. apply dict_get_set_ne. congruence.
  - apply dict_get_set_eq.
Qed.

Lemma choose_format_png_keeps_quality_witness :
  let w := sample_world (Text quality_500_text) ["x"%string; " 2 "%string] in
  let cfg := load_config w in
  let cfg' := dict_set "output_format" (VStr "png") cfg in
  choose_format w = (Ok (Some cfg'), save_config cfg' (set_stdin w []))
  /\ dict_get "jpeg_quality" cfg' = dict_get "jpeg_quality" cfg
  /\ (forall k, k <> "output_format"%string -> dict_get k cfg' = dict_get k cfg)
  /\ dict_get "output_format" cfg' = Some (VStr "png").
Proof.
  apply (choose_format_png_keeps_quality
           (sample_world (Text quality_500_text) ["x"%string; " 2 "%string])
           ["x"%string] " 2 "%string []); reflexivity.
Defined.

(** ** Writing a configuration and reading it back *)

Section RoundTrip.
Import Json.
Local Open Scope string_scope.

Lemma append_cons (x : ascii) (a b : string) :
  String x a ++ b = String x (a ++ b).
Proof. reflexivity. Qed.

Lemma append_nil (b : string) : EmptyString ++ b = b.
Proof. reflexivity. Qed.

Lemma append_assoc (a b c : string) : (a ++ b) ++ c = a ++ (b ++ c).
Proof.
  induction a as [| x a IH]; [reflexivity |].
  now rewrite !append_cons, IH.
Qed.

Lemma length_append (a b : string) :
  String.length (a ++ b) = (String.length a + String.length b)%nat.
Proof.
  induction a as [| x a IH]; [reflexivity |].
  rewrite append_cons. cbn [String.length]. now rewrite IH.
Qed.

(** *** Strings *)

Lemma scanstring_escape_char c t :
  scanstring (escape_char c ++ t) = cons_char c (scanstring t).
Proof. destruct c as [[] [] [] [] [] [] [] []]; reflexivity. Qed.

Lemma scanstring_escape s rest :
  scanstring (escape s ++ String dquote rest) = Some (s, rest).
Proof.
  induction s as [| c s IH]; [reflexivity |].
  cbn [escape]. rewrite append_assoc, scanstring_escape_char, IH.
  reflexivity.
Qed.

Lemma scanstring_encode_string s rest :
  exists t, encode_string s ++ rest = String dquote t
            /\ scanstring t = Some (s, rest).
Proof.
  exists (escape s ++ String dquote rest). split.
  - unfold encode_string, str1. now rewrite append_cons, append_assoc.
  - apply scanstring_escape.
Qed.

(** *** Integers *)

Lemma digit_char_spec d : 0 <= d < 10 ->
  Py.isdigit (digit_char d) = true
  /\ Py.digit_value (digit_char d) = d
  /\ (Ascii.eqb (digit_char d) "0" = false \/ d = 0).
Proof.
  intros H.
  assert (Hd : d = 0 \/ d = 1 \/ d = 2 \/ d = 3 \/ d = 4 \/ d = 5 \/ d = 6
               \/ d = 7 \/ d = 8 \/ d = 9) by lia.
  repeat (destruct Hd as [-> | Hd]); try subst d; cbn; auto.
Qed.

Lemma decimal_append fuel : forall n acc rest,
  decimal fuel n acc ++ rest = decimal fuel n (acc ++ rest).
Proof.
  induction fuel as [| fuel IH]; intros n acc rest; cbn [decimal];
    [reflexivity |].
  destruct (n / 10 =? 0)%Z; [reflexivity | now rewrite IH].
Qed.

Lemma decimal_fuel_enough n : 0 <= n -> n < 2 ^ Z.of_nat (decimal_fuel n).
Proof.
  intros Hn. unfold decimal_fuel.
  rewrite Nat2Z.inj_succ, Z2Nat.id by apply Z.log2_nonneg.
  destruct (Z.eq_dec n 0) as [-> | Hne]; [reflexivity |].
  apply Z.log2_spec. lia.
Qed.

(** Reading the digits that [decimal] wrote gives the number back. *)
Lemma scan_digits_decimal fuel : forall n acc,
  0 <= n < 2 ^ Z.of_nat fuel ->
  exists k, 0 <= k /\ forall v,
    scan_digits v (decimal fuel n acc) = scan_digits (v * 10 ^ k + n) acc.
Proof.
  induction fuel as [| fuel IH]; intros n acc Hn.
  - cbn in Hn. assert (n = 0) by lia. subst n.
    exists 0. split; [lia |]. intros v. cbn [decimal]. f_equal. lia.
  - cbn [decimal].
    pose proof (Z.mod_pos_bound n 10 ltac:(lia)) as Hmod.
    destruct (digit_char_spec (n mod 10) Hmod) as [Hd [Hv _]].
    pose proof (Z.div_mod n 10 ltac:(lia)) as Hdm.
    destruct (Z.eqb_spec (n / 10) 0) as [H0 | Hne].
    + exists 1. split; [lia |]. intros v. cbn [scan_digits].
      rewrite Hd, Hv. f_equal. lia.
    + assert (Hq : 0 <= n / 10 < 2 ^ Z.of_nat fuel).
      { split; [apply Z.div_pos; lia |].
        rewrite Nat2Z.inj_succ, Z.pow_succ_r in Hn by lia.
        apply Z.div_lt_upper_bound; lia. }
      destruct (IH (n / 10) (String (digit_char (n mod 10)) acc) Hq)
        as [k [Hk Hscan]].
      exists (k + 1). split; [lia |]. intros v.
      rewrite Hscan. cbn [scan_digits]. rewrite Hd, Hv. f_equal.
      rewrite Z.pow_add_r by lia. lia.
Qed.

(** A positive number is written with a first digit that is not 0. *)
Lemma decimal_head fuel : forall n acc,
  0 < n < 2 ^ Z.of_nat fuel ->
  exists c r, decimal fuel n acc = String c r
              /\ Py.isdigit c = true /\ Ascii.eqb c "0" = false.
Proof.
  induction fuel as [| fuel IH]; intros n acc Hn.
  - cbn in Hn. lia.
  - cbn [decimal].
    pose proof (Z.mod_pos_bound n 10 ltac:(lia)) as Hmod.
    destruct (digit_char_spec (n mod 10) Hmod) as [Hd [_ Hz]].
    pose proof (Z.div_mod n 10 ltac:(lia)) as Hdm.
    destruct (Z.eqb_spec (n / 10) 0) as [H0 | Hne].
    + exists (digit_char (n mod 10)), acc.
      repeat split; [assumption |]. destruct Hz as [Hz | Hz]; [assumption | lia].
    + apply IH. split.
      * assert (0 <= n / 10) by (apply Z.div_pos; lia). lia.
      * rewrite Nat2Z.inj_succ, Z.pow_succ_r in Hn by lia.
        apply Z.div_lt_upper_bound; lia.
Qed.

Lemma scan_digits_delimited v rest :
  delimited rest = true -> scan_digits v rest = (v, rest).
Proof.
  destruct rest as [| c r]; [reflexivity |]. cbn [delimited scan_digits].
  intros H. apply andb_prop in H as [H _]. apply negb_true_iff in H.
  now rewrite H.
Qed.

Lemma float_follows_delimited rest :
  delimited rest = true -> float_follows rest = false.
Proof.
  destruct rest as [| c r]; [reflexivity |]. cbn [delimited].
  intros H. apply andb_prop in H as [_ H]. now apply negb_true_iff in H.
Qed.

Lemma scan_natural_decimal n rest :
  0 <= n -> delimited rest = true ->
  scan_natural (decimal (decimal_fuel n) n EmptyString ++ rest)
  = Some (n, rest).
Proof.
  intros Hn Hrest. rewrite decimal_append, append_nil.
  pose proof (decimal_fuel_enough n Hn) as Hfuel.
  destruct (Z.eq_dec n 0) as [-> | Hne]; [reflexivity |].
  destruct (decimal_head (decimal_fuel n) n rest ltac:(lia))
    as [c [r [Heq [Hd Hz]]]].
  destruct (scan_digits_decimal (decimal_fuel n) n rest ltac:(lia))
    as [k [_ Hscan]].
  unfold scan_natural. rewrite Heq, Hz, Hd, <- Heq, Hscan.
  rewrite scan_digits_delimited by assumption. do 2 f_equal.
Qed.

Lemma scan_number_encode_int z rest :
  delimited rest = true ->
  scan_number (encode_int z ++ rest) = Some (VInt z, rest).
Proof.
  intros Hrest. unfold encode_int, scan_number.
  destruct (Z.ltb_spec z 0) as [Hneg | Hpos].
  - rewrite append_cons. cbn [Ascii.eqb Bool.eqb].
    rewrite scan_natural_decimal by (assumption || lia).
    rewrite float_follows_delimited by assumption.
    do 3 f_equal. lia.
  - pose proof (decimal_fuel_enough z Hpos) as Hfuel.
    assert (Hscan := scan_natural_decimal z rest Hpos Hrest).
    destruct (decimal (decimal_fuel z) z EmptyString ++ rest) as [| c r] eqn:Heq.
    + discriminate.
    + destruct (Ascii.eqb c "-") eqn:Hc.
      * apply Ascii.eqb_eq in Hc. subst c. discriminate.
      * rewrite Hscan, float_follows_delimited by assumption. reflexivity.
Qed.

End RoundTrip.

Section RoundTripObjects.
Import Json.
Local Open Scope string_scope.

Lemma join_cons sep x l :
  l <> [] -> join sep (x :: l) = x ++ sep ++ join sep l.
Proof. destruct l; [congruence | reflexivity]. Qed.

Lemma skip_ws_head c r : is_ws c = false -> skip_ws (String c r) = String c r.
Proof. intros H. cbn [skip_ws]. now rewrite H. Qed.

Lemma number_head c :
  Ascii.eqb c "-" = true \/ Py.isdigit c = true ->
  is_ws c = false
  /\ forall fuel r, parse_value (S fuel) (String c r) = scan_number (String c r).
Proof.
  destruct c as [[] [] [] [] [] [] [] []]; intros [H | H];
    try discriminate H; split; reflexivity.
Qed.

Lemma encode_int_head z rest :
  exists c r, encode_int z ++ rest = String c r
              /\ (Ascii.eqb c "-" = true \/ Py.isdigit c = true).
Proof.
  unfold encode_int. destruct (Z.ltb_spec z 0) as [Hneg | Hpos].
  - rewrite append_cons. eauto.
  - rewrite decimal_append, append_nil.
    destruct (Z.eq_dec z 0) as [-> | Hne].
    + exists "0"%char, rest. split; [reflexivity | now right].
    + pose proof (decimal_fuel_enough z Hpos).
      destruct (decimal_head (decimal_fuel z) z rest ltac:(lia))
        as [c [r [Heq [Hd _]]]].
      eauto.
Qed.

(** A scalar is read back from its text. *)
Lemma parse_value_scalar fuel level v rest :
  scalar v = true -> delimited rest = true ->
  parse_value (S fuel) (encode level v ++ rest) = Some (v, rest).
Proof.
  intros Hs Hrest. destruct v as [| [] | z | s | |]; try discriminate Hs;
    try reflexivity.
  - cbn [encode].
    destruct (encode_int_head z rest) as [c [r [Heq Hc]]].
    destruct (number_head c Hc) as [_ Hp].
    now rewrite Heq, Hp, <- Heq, scan_number_encode_int.
  - cbn [encode].
    destruct (scanstring_encode_string s rest) as [t [Heq Hscan]].
    rewrite Heq. cbn [parse_value]. rewrite Ascii.eqb_refl, Hscan.
    reflexivity.
Qed.

Lemma scalar_head level v rest :
  scalar v = true ->
  exists c r, encode level v ++ rest = String c r /\ is_ws c = false.
Proof.
  intros Hs. destruct v as [| [] | z | s | |]; try discriminate Hs;
    try (do 2 eexists; split; reflexivity).
  cbn [encode]. destruct (encode_int_head z rest) as [c [r [Heq Hc]]].
  exists c, r. split; [assumption | apply (number_head c Hc)].
Qed.

(** The text of a non-empty list of entries starts with a quote. *)
Lemma members_head kv d rest :
  exists t, join separator (map member (kv :: d)) ++ rest = String dquote t.
Proof.
  assert (H : forall x, exists t, member kv ++ x = String dquote t).
  { intros x. unfold member, encode_string.
    rewrite !append_cons. eauto. }
  destruct d as [| kv' d]; cbn [map join].
  - apply H.
  - rewrite append_assoc. apply H.
Qed.

(** Unfolding [parse_members] at an entry. *)
Lemma parse_members_entry fuel t acc :
  parse_members (S fuel) (String dquote t) acc
  = match scanstring t with
    | Some (key, r1) =>
        match skip_ws r1 with
        | String ":" r2 =>
            match parse_value fuel (skip_ws r2) with
            | Some (v, r3) =>
                match skip_ws r3 with
                | String "}" r4 =>
                    Some (VDict (dict_of_pairs (rev ((key, v) :: acc))), r4)
                | String "," r4 =>
                    parse_members fuel (skip_ws r4) ((key, v) :: acc)
                | _ => None
                end
            | None => None
            end
        | _ => None
        end
    | None => None
    end.
Proof. reflexivity. Qed.

Lemma member_scan kv x :
  exists t, member kv ++ x = String dquote t
            /\ scanstring t
               = Some (fst kv, String ":" (String " " (encode 1 (snd kv) ++ x))).
Proof.
  destruct (scanstring_encode_string (fst kv) (": " ++ encode 1 (snd kv) ++ x))
    as [t [Heq Hscan]].
  exists t. split; [| exact Hscan].
  unfold member. now rewrite !append_assoc.
Qed.

(** The entries of a flat object are read back, one per unit of fuel. *)
Lemma parse_members_flat d : forall fuel acc rest,
  d <> [] -> (length d < fuel)%nat ->
  forallb (fun kv => scalar (snd kv)) d = true ->
  parse_members fuel
    (join separator (map member d) ++ newline_indent 0 ++ "}" ++ rest) acc
  = Some (VDict (dict_of_pairs (rev acc ++ d)), rest).
Proof.
  induction d as [| kv d IH]; intros fuel acc rest Hne Hfuel Hsc;
    [congruence |].
  destruct fuel as [| fuel]; [cbn in Hfuel; lia |].
  destruct fuel as [| fuel]; [cbn in Hfuel; lia |].
  cbn [forallb] in Hsc. apply andb_prop in Hsc as [Hv Hsc].
  assert (Hstep : forall tail,
    delimited tail = true ->
    parse_members (S (S fuel)) (member kv ++ tail) acc
    = match skip_ws tail with
      | String "}" r4 =>
          Some (VDict (dict_of_pairs (rev ((fst kv, snd kv) :: acc))), r4)
      | String "," r4 =>
          parse_members (S fuel) (skip_ws r4) ((fst kv, snd kv) :: acc)
      | _ => None
      end).
  { intros tail Hdel.
    destruct (member_scan kv tail) as [t [Heq Hscan]].
    rewrite Heq, parse_members_entry, Hscan.
    rewrite (skip_ws_head ":") by reflexivity.
    cbn [skip_ws]. change (is_ws " ") with true. cbv iota.
    destruct (scalar_head 1 (snd kv) tail Hv) as [c [r [Hh Hc]]].
    rewrite Hh, (skip_ws_head c r Hc), <- Hh.
    now rewrite parse_value_scalar by assumption. }
  destruct d as [| kv' d].
  - cbn [map join].
    rewrite Hstep by reflexivity.
    change (skip_ws (newline_indent 0 ++ "}" ++ rest)) with (String "}" rest).
    destruct kv as [k v]. reflexivity.
  - change (map member (kv :: kv' :: d))
      with (member kv :: map member (kv' :: d)).
    rewrite join_cons by discriminate.
    rewrite !append_assoc, Hstep by reflexivity.
    unfold separator at 1. rewrite append_assoc, append_cons, append_nil.
    rewrite (skip_ws_head ",") by reflexivity. cbv iota.
    destruct (members_head kv' d (newline_indent 0 ++ "}" ++ rest))
      as [t Ht].
    assert (Hskip : forall x, skip_ws (newline_indent 1 ++ x) = skip_ws x)
      by reflexivity.
    rewrite Hskip, Ht, (skip_ws_head dquote) by reflexivity.
    rewrite <- Ht.
    rewrite (IH (S fuel) ((fst kv, snd kv) :: acc) rest);
      [| discriminate | cbn [length] in *; lia | exact Hsc].
    destruct kv as [k v]. cbn [fst snd rev].
    now rewrite <- app_assoc.
Qed.

End RoundTripObjects.

Section SaveLoad.
Import Json.
Local Open Scope string_scope.

Lemma member_length kv : (1 <= String.length (member kv))%nat.
Proof.
  unfold member, encode_string. rewrite append_cons. cbn [String.length]. lia.
Qed.

Lemma join_members_length d :
  (length d <= String.length (join separator (map member d)))%nat.
Proof.
  induction d as [| kv d IH]; [cbn; lia |].
  destruct d as [| kv' d].
  - cbn [map join length]. apply member_length.
  - change (map member (kv :: kv' :: d))
      with (member kv :: map member (kv' :: d)).
    rewrite join_cons by discriminate.
    rewrite !length_append. pose proof (member_length kv).
    cbn [length] in *. lia.
Qed.

Lemma parse_value_object fuel t :
  parse_value (S fuel) (String "{" (newline_indent 1 ++ String dquote t))
  = parse_members fuel (String dquote t) [].
Proof. reflexivity. Qed.

(** An object of scalars with distinct keys is read back from the
    text that [dumps] writes for it. *)
Lemma loads_dumps_flat (d : dict value) :
  List.NoDup (dict_keys d) ->
  forallb (fun kv => scalar (snd kv)) d = true ->
  loads (dumps (VDict d)) = Some (VDict d).
Proof.
  intros Hnd Hsc. destruct d as [| kv d]; [reflexivity |].
  set (body := join separator (map member (kv :: d))).
  assert (Htext : dumps (VDict (kv :: d))
                  = String "{" (newline_indent 1 ++ body
                                ++ newline_indent 0 ++ "}" ++ EmptyString))
    by reflexivity.
  unfold loads. rewrite Htext, (skip_ws_head "{") by reflexivity.
  destruct (members_head kv d (newline_indent 0 ++ "}" ++ EmptyString))
    as [t Ht].
  fold body in Ht. rewrite Ht, parse_value_object, <- Ht.
  unfold body. rewrite parse_members_flat; [| discriminate | | exact Hsc].
  - cbn [rev app skip_ws]. now rewrite dict_of_pairs_nodup.
  - cbn [String.length]. rewrite !length_append.
    pose proof (join_members_length (kv :: d)). lia.
Qed.

Lemma save_config_file cfg w :
  config_writable w = true ->
  config_file (save_config cfg w) = Text (dumps (VDict cfg)).
Proof. intros H. unfold save_config. now rewrite H. Qed.

(** After a save, a load gives the defaults overlaid with what was
    saved. *)
Lemma load_after_save cfg w :
  config_writable w = true ->
  List.NoDup (dict_keys cfg) ->
  forallb (fun kv => scalar (snd kv)) cfg = true ->
  load_config (save_config cfg w) = dict_update default_config cfg.
Proof.
  intros Hw Hnd Hsc.
  apply (load_config_object _ (dumps (VDict cfg)));
    [now apply save_config_file | now apply loads_dumps_flat].
Qed.

End SaveLoad.

(** C8.  For a valid configuration, [save_config] followed by
    [load_config] gives the configuration back when the write succeeds:
    the same value under every key, and the very same dictionary when
    its keys are in the order in which the script builds them. *)
Theorem save_load_round_trip (cfg : dict value) (w : world) :
  valid_config cfg -> config_writable w = true ->
  dict_eq (load_config (save_config cfg w)) cfg
  /\ (dict_keys cfg = dict_keys default_config ->
      load_config (save_config cfg w) = cfg).
Proof.
  intros (fmt & q & Hfmt & Hq & Hcfg) Hw.
  assert (Hload : load_config (save_config cfg w)
                  = [("output_format"%string, VStr fmt);
                     ("jpeg_quality"%string, VInt q)]).
  { rewrite load_after_save; try assumption.
    - destruct Hcfg as [-> | ->]; reflexivity.
    - destruct Hcfg as [-> | ->]; cbn;
        repeat (constructor; [cbn; intuition discriminate |]); constructor.
    - destruct Hcfg as [-> | ->]; reflexivity. }
  rewrite Hload. split.
  - intros k. destruct Hcfg as [-> | ->]; [reflexivity |]. cbn.
    destruct (String.eqb_spec k "output_format") as [-> | Hk]; [reflexivity |].
    now destruct (String.eqb k "jpeg_quality").
  - intros Hkeys. destruct Hcfg as [-> | ->]; [reflexivity | discriminate].
Qed.

Lemma save_load_round_trip_witness :
  let cfg := [("output_format"%string, VStr "jpeg");
              ("jpeg_quality"%string, VInt 80)] in
  dict_eq (load_config (save_config cfg (sample_world Absent []))) cfg
  /\ load_config (save_config cfg (sample_world Absent [])) = cfg.
Proof.
  intros cfg.
  destruct (save_load_round_trip cfg (sample_world Absent [])) as [Heq Hsame].
  - exists "jpeg"%string, 80. repeat split; auto; lia.
  - reflexivity.
  - split; [exact Heq | apply Hsame; reflexivity].
Defined.

(** ** Reporter *)

Section Sorting.
Context {A : Type} (key : A -> Z).

Lemma insert_desc_perm x l : Permutation (insert_desc key x l) (x :: l).
Proof.
  induction l as [| y l IH]; cbn; [reflexivity |].
  destruct (key x <? key y); [| reflexivity].
  rewrite IH. apply perm_swap.
Qed.

Lemma sorted_desc_perm l : Permutation (sorted_desc key l) l.
Proof.
  induction l as [| x l IH]; cbn; [reflexivity |].
  rewrite insert_desc_perm. now constructor.
Qed.

Lemma insert_desc_sorted x l :
  StronglySorted (desc key) l -> StronglySorted (desc key) (insert_desc key x l).
Proof.
  induction l as [| y l IH]; intros Hs; cbn.
  - repeat constructor.
  - apply StronglySorted_inv in Hs as [Hs Hy].
    destruct (Z.ltb_spec (key x) (key y)) as [Hlt | Hge].
    + constructor; [now apply IH |].
      rewrite Forall_forall in *. intros z Hz.
      apply list_elem_of_In in Hz.
      apply (Permutation_in _ (insert_desc_perm x l)) in Hz.
      destruct Hz as [<- | Hz]; [unfold desc; lia |].
      apply Hy, list_elem_of_In, Hz.
    + constructor; [now constructor |].
      constructor; [exact Hge |].
      eapply Forall_impl; [exact Hy |].
      intros z Hz. unfold desc in *. cbn in *. lia.
Qed.

Lemma sorted_desc_sorted l : StronglySorted (desc key) (sorted_desc key l).
Proof.
  induction l as [| x l IH]; cbn; [constructor | now apply insert_desc_sorted].
Qed.



(** In a list sorted largest first, what comes after a prefix is no
    larger than anything in the prefix. *)
Lemma sorted_prefix_dominates n l :
  StronglySorted (desc key) l ->
  forall a b, In a (firstn n l) -> In b (skipn n l) -> key b <= key a.
Proof.
  revert l. induction n as [| n IH]; intros l Hs a b Ha Hb; [contradiction |].
  destruct l as [| x l]; [contradiction |].
  apply StronglySorted_inv in Hs as [Hs Hx].
  cbn in Ha, Hb. destruct Ha as [<- | Ha].
  - rewrite Forall_forall in Hx. apply Hx, list_elem_of_In.
    rewrite <- (firstn_skipn n l). apply in_or_app. now right.
  - now apply (IH l).
Qed.

End Sorting.

Section Reporter.

(** The guard on [original_size] keeps the division away from 0. *)
Lemma ratio_ok s : ratio s = Ok (spec_ratio s).
Proof.
  unfold ratio, spec_ratio, truediv.
  now destruct (original_size s =? 0).
Qed.

Lemma top_entries_ok l :
  top_entries l
  = Ok (map (fun s => {| top_record := s; top_ratio := spec_ratio s |}) l).
Proof.
  induction l as [| s l IH]; [reflexivity |].
  cbn [top_entries map]. now rewrite ratio_ok, IH.
Qed.

(** [print_summary] raises for no list of records. *)
Lemma print_summary_returns stats fmt q :
  exists s, print_summary stats fmt q = Ok s.
Proof.
  unfold print_summary. destruct stats as [| r stats]; [eexists; reflexivity |].
  rewrite top_entries_ok. eexists. reflexivity.
Qed.

End Reporter.

(** C9.  For a non-empty list of records, [print_summary] returns, and
    what it shows after the totals are the first three records of the
    list sorted by [converted_size], largest first: a rearrangement of
    the records in which no later record is larger than an earlier one.
    Each is shown with the ratio [converted_size / original_size], or 1
    when [original_size] is 0, so that nothing is divided by 0. *)
Theorem print_summary_top3 (stats : list conversion_record)
    (fmt : value) (q : option value) :
  stats <> [] ->
  exists s,
    print_summary stats fmt q = Ok s
    /\ files_converted s = length stats
    /\ map top_record (top3 s) = firstn 3 (sorted_desc converted_size stats)
    /\ Permutation (sorted_desc converted_size stats) stats
    /\ StronglySorted (desc converted_size) (sorted_desc converted_size stats)
    /\ (forall a b,
          In a (map top_record (top3 s)) ->
          In b (skipn 3 (sorted_desc converted_size stats)) ->
          converted_size b <= converted_size a)
    /\ Forall (fun e => top_ratio e = spec_ratio (top_record e)) (top3 s).
Proof.
  intros Hne. destruct stats as [| r stats]; [congruence |].
  unfold print_summary. rewrite top_entries_ok.
  eexists. split; [reflexivity |]. cbn [files_converted top3].
  set (sorted := sorted_desc converted_size (r :: stats)).
  assert (Hmap : map top_record
                   (map (fun s => {| top_record := s; top_ratio := spec_ratio s |})
                        (firstn 3 sorted)) = firstn 3 sorted).
  { rewrite map_map. cbn [top_record]. apply map_id. }
  repeat split.
  - exact Hmap.
  - apply sorted_desc_perm.
  - apply sorted_desc_sorted.
  - intros a b Ha Hb. rewrite Hmap in Ha.
    eapply (sorted_prefix_dominates converted_size 3 sorted); eauto.
    apply sorted_desc_sorted.
  - apply Forall_map. apply Forall_forall. intros; reflexivity.
Qed.

Lemma print_summary_top3_witness :
  exists s,
    print_summary sample_stats (VStr "jpeg") (Some (VInt 80)) = Ok s
    /\ map (fun e => filename (top_record e)) (top3 s)
       = ["b.heic"%string; "a.heic"%string; "c.heic"%string]
    /\ Forall (fun e => top_ratio e = spec_ratio (top_record e)) (top3 s).
Proof.
  destruct (print_summary_top3 sample_stats (VStr "jpeg") (Some (VInt 80)))
    as (s & Hs & _ & Htop & _ & _ & _ & Hratio); [discriminate |].
  exists s. split; [exact Hs |]. split; [| exact Hratio].
  change (map (fun e => filename (top_record e)) (top3 s))
    with (map filename (map top_record (top3 s))) || rewrite <- map_map.
  rewrite Htop. reflexivity.
Defined.

(** ** Converter loop *)

Section Converter.
Variable save : string -> save_args -> image -> outcome Z.
Variables fmt quality : value.
Variable ext : string.

Lemma convert_one_valid out f :
  valid_file save fmt quality ext f ->
  exists r,
    convert_one save fmt quality ext out f
    = Ok (<[out_path ext f := converted_size r]> out, r)
    /\ record_of save fmt quality ext f r.
Proof.
  intros (n & img & sz & Hst & Hdec & Hsave).
  exists {| filename := name f; original_size := n; converted_size := sz |}.
  split.
  - unfold convert_one. rewrite Hst, Hdec. cbn. rewrite Hsave. cbn.
    now rewrite lookup_insert_eq.
  - repeat split; eauto.
Qed.

Lemma convert_one_corrupt out f :
  corrupt_file f ->
  exists msg, convert_one save fmt quality ext out f = Raised (Exception msg).
Proof.
  intros [[msg Hst] | (n & msg & Hst & Hdec)]; exists msg;
    unfold convert_one; rewrite Hst; [reflexivity |].
  cbn. now rewrite Hdec.
Qed.

(** A run of valid files: one record each, in order, and one output
    file each; nothing is removed from the output folder. *)
Lemma convert_loop_valid l : forall out stats term,
  Forall (valid_file save fmt quality ext) l ->
  exists recs out',
    convert_loop save fmt quality ext l out stats term
    = (Ok (stats ++ recs), out', term)
    /\ Forall2 (record_of save fmt quality ext) l recs
    /\ (forall k, is_Some (out !! k) -> is_Some (out' !! k))
    /\ Forall (fun f => is_Some (out' !! out_path ext f)) l.
Proof.
  induction l as [| f l IH]; intros out stats term Hl.
  - exists [], out. rewrite app_nil_r. repeat split; auto.
  - apply Forall_cons_1 in Hl as [Hf Hl].
    destruct (convert_one_valid out f Hf) as (r & Hone & Hrec).
    destruct (IH (<[out_path ext f := converted_size r]> out)
                 (stats ++ [r]) term Hl)
      as (recs & out' & Hloop & Hrecs & Hmono & Hout).
    exists (r :: recs), out'. cbn [convert_loop]. rewrite Hone, Hloop.
    rewrite <- app_assoc. repeat split; auto.
    + intros k Hk. apply Hmono.
      rewrite lookup_insert_is_Some. destruct (decide (out_path ext f = k)); auto.
    + constructor; [| exact Hout].
      apply Hmono. rewrite lookup_insert_eq. eauto.
Qed.

Lemma convert_loop_app l1 l2 : forall out stats term,
  convert_loop save fmt quality ext (l1 ++ l2) out stats term
  = match convert_loop save fmt quality ext l1 out stats term with
    | (Ok stats1, out1, term1) =>
        convert_loop save fmt quality ext l2 out1 stats1 term1
    | r => r
    end.
Proof.
  induction l1 as [| f l1 IH]; intros out stats term; [reflexivity |].
  cbn [app convert_loop].
  destruct (convert_one save fmt quality ext out f) as [[out' r] | [msg | msg]];
    auto.
Qed.

(** One corrupt file among valid ones: the loop returns, with the
    records of the valid files and without the corrupt one. *)
Lemma convert_loop_one_corrupt pre bad post out term :
  corrupt_file bad ->
  Forall (valid_file save fmt quality ext) (pre ++ post) ->
  exists stats out' term',
    convert_loop save fmt quality ext (pre ++ bad :: post) out [] term
    = (Ok stats, out', term')
    /\ Forall2 (record_of save fmt quality ext) (pre ++ post) stats
    /\ Forall (fun f => is_Some (out' !! out_path ext f)) (pre ++ post).
Proof.
  intros Hbad Hvalid. apply Forall_app in Hvalid as [Hpre Hpost].
  destruct (convert_loop_valid pre out [] term Hpre)
    as (recs1 & out1 & Hl1 & Hr1 & _ & Ho1).
  destruct (convert_one_corrupt out1 bad Hbad) as [msg Hone].
  destruct (convert_loop_valid post out1 ([] ++ recs1)
              (term ++ [error_line bad msg]) Hpost)
    as (recs2 & out2 & Hl2 & Hr2 & Hmono & Ho2).
  exists (recs1 ++ recs2), out2, (term ++ [error_line bad msg]).
  rewrite convert_loop_app, Hl1. cbn [convert_loop]. rewrite Hone, Hl2.
  repeat split; auto.
  - now apply Forall2_app.
  - apply Forall_app. split; [| exact Ho2].
    eapply Forall_impl; [exact Ho1 |]. intros f Hf. now apply Hmono.
Qed.

End Converter.

Lemma record_names save fmt quality ext l stats :
  Forall2 (record_of save fmt quality ext) l stats ->
  map filename stats = map name l.
Proof.
  induction 1 as [| f r l stats [Hn _] _ IH]; [reflexivity |].
  cbn. now rewrite Hn, IH.
Qed.

Lemma filter_names_nodup (p : input_file -> bool) l :
  List.NoDup (map name l) -> List.NoDup (map name (List.filter p l)).
Proof.
  induction l as [| f l IH]; intros Hnd; [constructor |].
  cbn in Hnd. apply List.NoDup_cons_iff in Hnd as [Hf Hnd].
  cbn. destruct (p f); [| now apply IH].
  cbn. constructor; [| now apply IH].
  intros Hin. apply Hf. apply in_map_iff in Hin as (g & Hg & Hin).
  apply filter_In in Hin as [Hin _]. apply in_map_iff. eauto.
Qed.

(** C4.  A batch with one corrupt or unreadable file among valid
    files: [convert_files] returns without raising; the returned
    records are those of the valid files, in order; each valid file has
    its output file; no record carries the name of the corrupt file. *)
Theorem convert_files_one_corrupt (config : dict value) (w : world)
    (s : string) (pre : list input_file) (bad : input_file)
    (post : list input_file) :
  dict_get "output_format" config = Some (VStr s) ->
  List.filter eligible (input_dir w) = pre ++ bad :: post ->
  List.NoDup (map name (input_dir w)) ->
  corrupt_file bad ->
  Forall (valid_file (save_image w) (VStr s) (config_quality config)
                     (config_ext (VStr s))) (pre ++ post) ->
  exists stats w',
    convert_files config w = (Ok stats, w')
    /\ Forall2 (record_of (save_image w) (VStr s) (config_quality config)
                          (config_ext (VStr s))) (pre ++ post) stats
    /\ Forall (fun f => is_Some (output_dir w' !! out_path (config_ext (VStr s)) f))
              (pre ++ post)
    /\ ~ In (name bad) (map filename stats).
Proof.
  intros Hfmt Hfiles Hnd Hbad Hvalid.
  destruct (convert_loop_one_corrupt (save_image w) (VStr s)
              (config_quality config) (config_ext (VStr s))
              pre bad post (output_dir w) (terminal w) Hbad Hvalid)
    as (stats & out' & term' & Hloop & Hrecs & Hout).
  exists stats, (set_output w out' term').
  split; [| split; [exact Hrecs | split; [exact Hout |]]].
  - unfold convert_files. rewrite Hfiles.
    destruct (pre ++ bad :: post) as [| f0 l0] eqn:Hl;
      [now destruct pre |].
    unfold subscript. rewrite Hfmt.
    fold (config_quality config). fold (config_ext (VStr s)).
    now rewrite Hloop.
  - rewrite (record_names _ _ _ _ _ _ Hrecs).
    apply (filter_names_nodup eligible) in Hnd. rewrite Hfiles in Hnd.
    rewrite map_app in *. cbn [map] in Hnd.
    now apply List.NoDup_remove_2 in Hnd.
Qed.

Lemma convert_files_one_corrupt_witness :
  exists stats w',
    convert_files default_config sample_batch_world = (Ok stats, w')
    /\ map filename stats = ["a.heic"%string; "b.HEIF"%string]
    /\ is_Some (output_dir w' !! "a.png"%string)
    /\ is_Some (output_dir w' !! "b.png"%string)
    /\ ~ In "broken.heic"%string (map filename stats).
Proof.
  destruct (convert_files_one_corrupt default_config sample_batch_world "png"
              [file_a] file_broken [file_b])
    as (stats & w' & Hrun & Hrecs & Hout & Hbad).
  - reflexivity.
  - reflexivity.
  - cbn. repeat (constructor; [cbn; intuition discriminate |]). constructor.
  - right. exists 10, "cannot identify image file"%string. split; reflexivity.
  - repeat constructor; do 3 eexists; repeat split; reflexivity.
  - exists stats, w'. split; [exact Hrun |].
    pose proof (record_names _ _ _ _ _ _ Hrecs) as Hnames.
    apply Forall_cons_1 in Hout as [Ha Hout].
    apply Forall_cons_1 in Hout as [Hb _].
    repeat split; assumption.
Defined.

(** * Further properties *)

(** ** Config store: merging the file into the defaults *)

Section Merge.


End Merge.



(** ** JSON text of any value *)

Ltac ascii_split a :=
  destruct a as [[] [] [] [] [] [] [] []]; cbv iota in *; try discriminate.



Section JsonRoundTrip.
Import Json.
Local Open Scope string_scope.

Lemma wf_value_list l : wf_value (VList l) <-> Forall wf_value l.
Proof.
  cbn [wf_value]. induction l as [| x l IH]; cbn [fold_right].
  - split; [constructor | trivial].
  - rewrite IH. split.
    + intros [Hx Hl]. now constructor.
    + intros H. now apply Forall_cons_1 in H.
Qed.

Lemma wf_value_dict d :
  wf_value (VDict d)
  <-> List.NoDup (dict_keys d) /\ Forall (fun kv => wf_value (snd kv)) d.
Proof.
  cbn [wf_value].
  assert (H : fold_right (fun kv acc => wf_value (snd kv) /\ acc) True d
              <-> Forall (fun kv => wf_value (snd kv)) d).
  { induction d as [| kv d IH]; cbn [fold_right].
    - split; [constructor | trivial].
    - rewrite IH. split.
      + intros [Hx Hl]. now constructor.
      + intros H. now apply Forall_cons_1 in H. }
  now rewrite H.
Qed.



Lemma newline_indent_length n :
  String.length (newline_indent n) = S (2 * n).
Proof.
  unfold newline_indent. cbn [String.length]. f_equal.
  induction (2 * n)%nat as [| k IH]; [reflexivity |]. cbn. now rewrite IH.
Qed.















End JsonRoundTrip.

Section DecoderValues.
Import Json.

Lemma dict_set_values (P : value -> Prop) k v d :
  P v -> Forall (fun kv => P (snd kv)) d ->
  Forall (fun kv => P (snd kv)) (dict_set k v d).
Proof.
  intros Hv. induction d as [| [k' v'] d IH]; intros Hd; cbn [dict_set].
  - now repeat constructor.
  - apply Forall_cons_1 in Hd as [Hk Hd].
    destruct (String.eqb k k'); constructor; auto.
Qed.

Lemma dict_update_values (P : value -> Prop) e : forall d,
  Forall (fun kv => P (snd kv)) e -> Forall (fun kv => P (snd kv)) d ->
  Forall (fun kv => P (snd kv)) (dict_update d e).
Proof.
  induction e as [| [k v] e IH]; intros d He Hd; [exact Hd |].
  apply Forall_cons_1 in He as [Hv He].
  cbn [dict_update fold_left fst snd].
  change (fold_left _ e ?x) with (dict_update x e).
  apply IH; [exact He |]. now apply dict_set_values.
Qed.

Lemma scan_number_int s v r : scan_number s = Some (v, r) -> exists z, v = VInt z.
Proof.
  unfold scan_number. intros H.
  destruct s as [| c t]; [discriminate |].
  destruct (Ascii.eqb c "-");
    (destruct (scan_natural _) as [[n r'] |]; [| discriminate]);
    (destruct (float_follows r'); [discriminate |]);
    injection H as <- _; eauto.
Qed.

(** The decoder builds well-formed values only. *)
Lemma parse_wf fuel :
  (forall s v r, parse_value fuel s = Some (v, r) -> wf_value v)
  /\ (forall s acc v r,
        Forall (fun kv => wf_value (snd kv)) acc ->
        parse_members fuel s acc = Some (v, r) -> wf_value v)
  /\ (forall s acc v r,
        Forall wf_value acc ->
        parse_elements fuel s acc = Some (v, r) -> wf_value v).
Proof.
  induction fuel as [| fuel (IHv & IHm & IHe)];
    [repeat split; intros; discriminate |].
  split; [| split].
  - intros s v r H. cbn [parse_value] in H.
    destruct s as [| c t]; [discriminate |].
    destruct (Ascii.eqb c dquote).
    { destruct (scanstring t) as [[str r'] |]; [| discriminate].
      injection H as <- _. exact I. }
    destruct (Ascii.eqb c "{").
    { destruct (skip_ws t) as [| a u].
      - apply IHm in H; [exact H | constructor].
      - ascii_split a; try (apply IHm in H; [exact H | constructor]).
        injection H as <- _. apply wf_value_dict. split; constructor. }
    destruct (Ascii.eqb c "[").
    { destruct (skip_ws t) as [| a u].
      - apply IHe in H; [exact H | constructor].
      - ascii_split a; try (apply IHe in H; [exact H | constructor]).
        injection H as <- _. exact I. }
    destruct (strip_prefix "null" (String c t)); [injection H as <- _; exact I |].
    destruct (strip_prefix "true" (String c t)); [injection H as <- _; exact I |].
    destruct (strip_prefix "false" (String c t)); [injection H as <- _; exact I |].
    apply scan_number_int in H as [z ->]. exact I.
  - intros s acc v r Hacc H. cbn [parse_members] in H.
    destruct s as [| c t]; [discriminate |].
    destruct (Ascii.eqb c dquote); [| discriminate].
    destruct (scanstring t) as [[key r1] |]; [| discriminate].
    destruct (skip_ws r1) as [| a r2]; [discriminate |].
    ascii_split a.
    destruct (parse_value fuel (skip_ws r2)) as [[v' r3] |] eqn:Hv;
      [| discriminate].
    apply IHv in Hv.
    assert (Hacc' : Forall (fun kv => wf_value (snd kv)) ((key, v') :: acc))
      by now constructor.
    destruct (skip_ws r3) as [| b r4]; [discriminate |].
    ascii_split b.
    + injection H as <- _. apply wf_value_dict. split.
      * apply (dict_update_nodup []). constructor.
      * apply dict_update_values; [| constructor].
        change (rev acc ++ [(key, v')]) with (rev ((key, v') :: acc)).
        apply Forall_rev. exact Hacc'.
    + apply IHm in H; assumption.
  - intros s acc v r Hacc H. cbn [parse_elements] in H.
    destruct (parse_value fuel s) as [[v' r1] |] eqn:Hv; [| discriminate].
    apply IHv in Hv.
    assert (Hacc' : Forall wf_value (v' :: acc)) by now constructor.
    destruct (skip_ws r1) as [| b r2]; [discriminate |].
    ascii_split b.
    + injection H as <- _. apply wf_value_list.
      change (rev acc ++ [v']) with (rev (v' :: acc)).
      apply Forall_rev. exact Hacc'.
    + apply IHe in H; assumption.
Qed.

Lemma loads_wf s v : loads s = Some v -> wf_value v.
Proof.
  unfold loads. intros H. case_matches. injection H as <-.
  eapply (proj1 (parse_wf _)). eassumption.
Qed.

End DecoderValues.

Section Persistence.
Import Json.

(** The defaults stay in front, in their order, whatever is merged in. *)
Lemma dict_update_front (e : list (string * value)) : forall k1 a k2 b t,
  exists a' b' t',
    dict_update ((k1, a) :: (k2, b) :: t) e = (k1, a') :: (k2, b') :: t'.
Proof.
  induction e as [| [k v] e IH]; intros k1 a k2 b t; [cbn; eauto |].
  cbn [dict_update fold_left fst snd dict_set].
  change (fold_left _ e ?x) with (dict_update x e).
  destruct (String.eqb k k1); [apply IH |].
  destruct (String.eqb k k2); apply IH.
Qed.

Lemma load_config_shape w :
  exists a b extras,
    load_config w
    = ("output_format"%string, a) :: ("jpeg_quality"%string, b) :: extras.
Proof.
  unfold load_config.
  destruct (config_file w) as [| | s]; try (do 3 eexists; reflexivity).
  destruct (loads s) as [[| | | | | o] |]; try (do 3 eexists; reflexivity).
  apply dict_update_front.
Qed.

Lemma default_config_wf : wf_value (VDict default_config).
Proof.
  apply wf_value_dict. split.
  - cbn. repeat (constructor; [cbn; intuition discriminate |]). constructor.
  - repeat constructor.
Qed.

Lemma load_config_wf w : wf_value (VDict (load_config w)).
Proof.
  unfold load_config.
  destruct (config_file w) as [| | s]; try apply default_config_wf.
  destruct (loads s) as [[| | | | | o] |] eqn:Hl; try apply default_config_wf.
  apply loads_wf, wf_value_dict in Hl as [_ Ho].
  destruct (proj1 (wf_value_dict _) default_config_wf) as [Hnd Hd].
  apply wf_value_dict. split.
  - now apply dict_update_nodup.
  - now apply dict_update_values.
Qed.


End Persistence.

Section Persistence2.
Import Json.

Lemma dict_get_In {V : Type} k (v : V) d : dict_get k d = Some v -> In (k, v) d.
Proof.
  induction d as [| [k' v'] d IH]; cbn [dict_get]; [discriminate |].
  destruct (String.eqb_spec k k') as [-> | Hne].
  - intros [= ->]. now left.
  - intros H. right. now apply IH.
Qed.






Lemma py_min_numeric a b r : py_min a b = Ok r -> as_int r <> None.
Proof.
  unfold py_min. destruct (as_int a) eqn:Ha, (as_int b) eqn:Hb; try discriminate.
  intros [= <-]. destruct (_ <? _); congruence.
Qed.

Lemma py_max_numeric a b r : py_max a b = Ok r -> as_int r <> None.
Proof.
  unfold py_max. destruct (as_int a) eqn:Ha, (as_int b) eqn:Hb; try discriminate.
  intros [= <-]. destruct (_ >? _); congruence.
Qed.

Lemma choose_quality_wf cfg x q :
  Forall (fun kv => wf_value (snd kv)) cfg ->
  choose_quality cfg x = Ok q -> wf_value q.
Proof.
  intros Hcfg. unfold choose_quality.
  destruct (quality_try cfg x) as [q' |] eqn:Ht.
  - intros [= <-]. unfold quality_try in Ht.
    unfold mbind, outcome_bind in Ht.
    destruct (match x with EmptyString => _ | String _ _ => _ end) as [q0 |];
      [| discriminate Ht].
    destruct (py_min (VInt 100) q0) as [m |]; [| discriminate Ht].
    apply py_max_numeric in Ht. now destruct q'.
  - unfold subscript. destruct (dict_get "jpeg_quality" cfg) eqn:Hg; [| discriminate].
    intros [= <-]. apply dict_get_In in Hg.
    rewrite Forall_forall in Hcfg. apply (Hcfg _ (proj2 (list_elem_of_In _ _) Hg)).
Qed.

(** How the loop of [choose_format] can end with a configuration. *)
Lemma choose_loop_some cfg lines cfg' rest :
  choose_loop cfg lines = (Ok (Some cfg'), rest) ->
  cfg' = dict_set "output_format" (VStr "png") cfg
  \/ exists q x, choose_quality cfg x = Ok q
       /\ cfg' = dict_update cfg [("output_format"%string, VStr "jpeg");
                                  ("jpeg_quality"%string, q)].
Proof.
  revert rest. induction lines as [| line lines IH]; intros rest H;
    [discriminate |].
  cbn [choose_loop] in H.
  destruct (String.eqb _ "q"); [discriminate |].
  destruct (String.eqb _ "1").
  - destruct (subscript cfg "jpeg_quality"); [| discriminate].
    destruct lines as [| qline lines]; [discriminate |].
    destruct (choose_quality cfg (Py.strip qline)) as [q |] eqn:Hq;
      [| discriminate].
    injection H as <- _. right. eauto.
  - destruct (String.eqb _ "2"); [injection H as <- _; now left |].
    now apply IH in H.
Qed.

Lemma choose_format_some w cfg' w' :
  choose_format w = (Ok (Some cfg'), w') ->
  exists rest,
    choose_loop (load_config w) (stdin w) = (Ok (Some cfg'), rest)
    /\ w' = save_config cfg' (set_stdin w rest).
Proof.
  unfold choose_format.
  destruct (choose_loop (load_config w) (stdin w)) as [[[c |] | e] rest] eqn:Hl;
    intros H; try discriminate H; injection H as <- <-; eauto.
Qed.

(** What [choose_format] returns starts with the two default keys and
    is well formed. *)
Lemma choose_format_shape w cfg' w' :
  choose_format w = (Ok (Some cfg'), w') ->
  wf_value (VDict cfg')
  /\ exists a b extras,
       cfg' = ("output_format"%string, VStr a)
              :: ("jpeg_quality"%string, b) :: extras
       /\ (a = "png"%string \/ a = "jpeg"%string).
Proof.
  intros H. apply choose_format_some in H as (rest & Hloop & _).
  destruct (load_config_shape w) as (a & b & extras & Hs).
  pose proof (load_config_wf w) as Hwf. rewrite Hs in *.
  apply wf_value_dict in Hwf as [Hnd Hv].
  apply choose_loop_some in Hloop as [-> | (q & x & Hq & ->)].
  - split.
    + apply wf_value_dict. split; [exact Hnd |].
      apply Forall_cons_1 in Hv as [_ Hv]. now constructor.
    + exists "png"%string, b, extras. split; [reflexivity | now left].
  - apply choose_quality_wf in Hq; [| exact Hv]. split.
    + apply wf_value_dict. split; [exact Hnd |].
      apply Forall_cons_1 in Hv as [_ Hv]. apply Forall_cons_1 in Hv as [_ Hv].
      repeat constructor; assumption.
    + exists "jpeg"%string, q, extras. split; [reflexivity | now right].
Qed.

End Persistence2.

Section FormatSelection.

(** Invalid answers are asked again. *)
Lemma choose_loop_skip cfg pre lines :
  forallb invalid_choice pre = true ->
  choose_loop cfg (pre ++ lines) = choose_loop cfg lines.
Proof.
  induction pre as [| p pre IH]; intros Hpre; [reflexivity |].
  cbn [forallb] in Hpre. apply andb_prop in Hpre as [Hp Hpre].
  unfold invalid_choice in Hp. apply negb_true_iff in Hp.
  apply orb_false_elim in Hp as [Hp H2].
  apply orb_false_elim in Hp as [Hq H1].
  cbn [app choose_loop]. rewrite Hq, H1, H2. now apply IH.
Qed.



(** X5.  After any number of invalid answers, the answer [q], in either
    case and with blanks around it, makes [choose_format] return [None]:
    the lines after it are left unread, the config file and the output
    folder are as before. *)
Theorem choose_format_quit (w : world) pre line rest :
  stdin w = pre ++ line :: rest ->
  forallb invalid_choice pre = true ->
  Py.lower (Py.strip line) = "q"%string ->
  choose_format w = (Ok None, set_stdin w rest)
  /\ config_file (snd (choose_format w)) = config_file w
  /\ output_dir (snd (choose_format w)) = output_dir w.
Proof.
  intros Hin Hpre Hline.
  assert (H : choose_format w = (Ok None, set_stdin w rest)).
  { unfold choose_format. rewrite Hin, choose_loop_skip by assumption.
    cbn [choose_loop]. now rewrite Hline. }
  rewrite H. repeat split.
Qed.

Lemma choose_format_quit_witness :
  choose_format (sample_world (Text quality_500_text)
                   ["x"%string; " Q"%string; "2"%string])
  = (Ok None, sample_world (Text quality_500_text) ["2"%string]).
Proof.
  apply (choose_format_quit
           (sample_world (Text quality_500_text)
              ["x"%string; " Q"%string; "2"%string])
           ["x"%string] " Q"%string ["2"%string]); reflexivity.
Defined.

(** X6.  When the input ends at the menu, or at the quality prompt
    after the answer [1], [choose_format] raises [EOFError] and nothing
    is saved. *)
Theorem choose_format_eof (w : world) pre :
  forallb invalid_choice pre = true ->
  (stdin w = pre
   \/ exists line, stdin w = pre ++ [line]
                   /\ Py.lower (Py.strip line) = "1"%string) ->
  choose_format w = (Raised (Exception "EOFError"), set_stdin w []).
Proof.
  intros Hpre Hin. unfold choose_format.
  assert (Hnil : choose_loop (load_config w) []
                 = (Raised (Exception "EOFError"), [])) by reflexivity.
  destruct Hin as [-> | (line & -> & Hline)].
  - rewrite <- (app_nil_r pre), choose_loop_skip, Hnil by assumption.
    reflexivity.
  - rewrite choose_loop_skip by assumption. cbn [choose_loop].
    rewrite Hline. cbn [String.eqb Ascii.eqb Bool.eqb].
    destruct (load_config_has_quality w) as [v Hv].
    unfold subscript. now rewrite Hv.
Qed.

Lemma choose_format_eof_witness :
  choose_format (sample_world Absent ["x"%string; "1"%string])
  = (Raised (Exception "EOFError"), sample_world Absent []).
Proof.
  apply (choose_format_eof (sample_world Absent ["x"%string; "1"%string])
           ["x"%string]); [reflexivity |].
  right. exists "1"%string. split; reflexivity.
Defined.



(** X8.  A configuration returned by [choose_format] has the format
    [png] or [jpeg], has a quality entry, and has no key twice, whatever
    the config file held. *)
Theorem choose_format_result (w : world) cfg' w' :
  choose_format w = (Ok (Some cfg'), w') ->
  (dict_get "output_format" cfg' = Some (VStr "png")
   \/ dict_get "output_format" cfg' = Some (VStr "jpeg"))
  /\ (exists q, dict_get "jpeg_quality" cfg' = Some q)
  /\ List.NoDup (dict_keys cfg').
Proof.
  intros H.
  destruct (choose_format_shape w cfg' w' H) as (Hwf & a & b & extras & -> & Ha).
  apply wf_value_dict in Hwf as [Hnd _].
  split; [| split; [exists b; reflexivity | exact Hnd]].
  destruct Ha as [-> | ->]; [left | right]; reflexivity.
Qed.

Lemma choose_format_result_witness :
  dict_get "output_format" (dict_set "output_format" (VStr "png")
                              (load_config (sample_world (Text quality_500_text) [])))
  = Some (VStr "png")
  \/ dict_get "output_format" (dict_set "output_format" (VStr "png")
                                 (load_config (sample_world (Text quality_500_text) [])))
     = Some (VStr "jpeg").
Proof.
  apply (choose_format_result
           (sample_world (Text quality_500_text) ["2"%string])
           (dict_set "output_format" (VStr "png")
              (load_config (sample_world (Text quality_500_text) [])))
           (save_config
              (dict_set "output_format" (VStr "png")
                 (load_config (sample_world (Text quality_500_text) [])))
              (sample_world (Text quality_500_text) []))).
  reflexivity.
Defined.

End FormatSelection.

(** ** Blending onto white *)

Section BlendRounding.

Lemma DIV255_rounds x : 0 <= x <= 65025 -> DIV255 x = (2 * x + 255) / 510.
Proof.
  intros Hx. unfold DIV255, SHIFTFORDIV255.
  rewrite !Z.shiftr_div_pow2 by lia. change (2 ^ 8) with 256.
  pose proof (Z.div_mod (x + 128) 256 ltac:(lia)) as Hq.
  pose proof (Z.mod_pos_bound (x + 128) 256 ltac:(lia)) as Hqr.
  pose proof (Z.div_mod (2 * x + 255) 510 ltac:(lia)) as Hr.
  pose proof (Z.mod_pos_bound (2 * x + 255) 510 ltac:(lia)) as Hrr.
  set (q := (x + 128) / 256) in *.
  set (r := (2 * x + 255) / 510) in *.
  symmetry. apply (Z.div_unique _ 256 _ (q + (x + 128) - 256 * r)); lia.
Qed.

Lemma blend_operand c a : 0 <= c < 256 -> 0 <= a < 256 ->
  255 * c <= 255 * (255 - a) + c * a <= 65025.
Proof. intros Hc Ha. nia. Qed.

Lemma BLEND8_white c a : 0 <= c < 256 -> 0 <= a < 256 ->
  BLEND8 a 255 c = round_blend c a.
Proof.
  intros Hc Ha. unfold BLEND8, round_blend.
  pose proof (blend_operand c a Hc Ha).
  rewrite DIV255_rounds by lia. reflexivity.
Qed.

Lemma round_blend_bounds c a : 0 <= c < 256 -> 0 <= a < 256 ->
  c <= round_blend c a <= 255.
Proof.
  intros Hc Ha. unfold round_blend.
  pose proof (blend_operand c a Hc Ha) as Hx.
  split.
  - apply Z.div_le_lower_bound; lia.
  - apply Z.lt_succ_r. apply Z.div_lt_upper_bound; lia.
Qed.

Lemma paste_pixel_white r g b a :
  Forall is_uint8 [r; g; b; a] ->
  paste_pixel white [r; g; b; a] a = composite [r; g; b; a].
Proof.
  intros H.
  apply Forall_cons_1 in H as [Hr H].
  apply Forall_cons_1 in H as [Hg H].
  apply Forall_cons_1 in H as [Hb H].
  apply Forall_cons_1 in H as [Ha _].
  unfold is_uint8 in *.
  unfold paste_pixel, composite, white, band; cbn [nth firstn map].
  rewrite !BLEND8_white by assumption.
  rewrite !UINT8_small; try reflexivity.
  all: match goal with
       | |- _ <= round_blend ?c ?a < _ =>
           pose proof (round_blend_bounds c a); lia
       end.
Qed.

Lemma composite_pixels (d : list pixel) :
  Forall (fun px => length px = 4%nat /\ Forall is_uint8 px) d ->
  map (fun px => paste_pixel white px (band 3 px)) d = map composite d.
Proof.
  induction 1 as [| px d [Hl Hb] _ IH]; [reflexivity |].
  cbn [map]. rewrite IH. f_equal.
  destruct px as [| r [| g [| b [| a [| ? ?]]]]]; try discriminate.
  change (band 3 [r; g; b; a]) with a. now apply paste_pixel_white.
Qed.

Lemma sanitize_image_RGBA_data img : mode img = RGBA ->
  length (data img) = npixels (size img) ->
  data (sanitize_image img)
  = map (fun px => paste_pixel white px (band 3 px)) (data img).
Proof.
  intros Hm Hlen. rewrite sanitize_image_RGBA by assumption.
  unfold paste, Pillow.new, alpha_band; cbn [mode size data palette].
  rewrite <- Hlen. apply paste_data_canvas.
Qed.

Lemma sanitize_image_P_data img : mode img = P ->
  length (data img) = npixels (size img) ->
  data (sanitize_image img)
  = map (fun px => paste_pixel white px (band 3 px))
        (map (fun px => palette_entry (palette img) (band 0 px)) (data img)).
Proof.
  intros Hm Hlen. rewrite sanitize_image_P by assumption.
  unfold flatten_on_white. cbv zeta.
  rewrite (last_split_RGBA (convert img RGBA)) by reflexivity.
  unfold paste, Pillow.new, alpha_band; cbn [mode size data palette convert].
  rewrite <- Hlen.
  rewrite <- (length_map (convert_pixel (palette img) (mode img) RGBA)).
  rewrite paste_data_canvas. rewrite Hm. reflexivity.
Qed.

End BlendRounding.

(** X9.  For an RGBA image, each colour band [c] of a pixel with alpha
    [a] comes out as [(255 * (255 - a) + c * a) / 255] rounded to the
    nearest integer, a half going up: the integer shifts of the blend
    compute this fraction exactly. *)
Theorem sanitize_image_blend (img : image) :
  wf_image img -> mode img = RGBA ->
  data (sanitize_image img) = map composite (data img).
Proof.
  intros [Hlen Hpx _] Hm.
  rewrite sanitize_image_RGBA_data by assumption.
  apply composite_pixels. now rewrite Hm in Hpx.
Qed.

Lemma palette_sample_wf : wf_image palette_sample.
Proof.
  constructor; cbn; [reflexivity | |];
    repeat (constructor; [split; [reflexivity |] |]);
    try (unfold is_uint8; repeat first [lia | constructor]).
Qed.

Lemma sanitize_image_blend_witness :
  data (sanitize_image (rgba_sample 128))
  = map composite (data (rgba_sample 128)).
Proof.
  apply (sanitize_image_blend (rgba_sample 128));
    [apply rgba_sample_wf; lia | reflexivity].
Defined.

(** X10.  Compositing an RGBA image onto white never darkens: every
    output pixel has three bands, each between the input band and 255. *)
Theorem sanitize_image_never_darker (img : image) :
  wf_image img -> mode img = RGBA ->
  Forall2 (fun px out =>
             length out = 3%nat
             /\ forall k, (k < 3)%nat -> band k px <= band k out <= 255)
          (data img) (data (sanitize_image img)).
Proof.
  intros [Hlen Hpx _] Hm. rewrite Hm in Hpx.
  rewrite sanitize_image_RGBA_data, composite_pixels by assumption.
  clear Hlen.
  induction Hpx as [| px d [Hl Hb] _ IH]; cbn [map]; constructor; [| exact IH].
  destruct px as [| r [| g [| b [| a [| ? ?]]]]]; try discriminate.
  apply Forall_cons_1 in Hb as [Hr Hb].
  apply Forall_cons_1 in Hb as [Hg Hb].
  apply Forall_cons_1 in Hb as [Hbb Hb].
  apply Forall_cons_1 in Hb as [Ha _].
  unfold is_uint8 in *.
  split; [reflexivity |].
  intros k Hk. unfold composite, band; cbn [nth firstn map].
  destruct k as [| [| [| k]]]; cbn [nth]; try lia;
    apply round_blend_bounds; assumption.
Qed.

Lemma sanitize_image_never_darker_witness :
  Forall2 (fun px out =>
             length out = 3%nat
             /\ forall k, (k < 3)%nat -> band k px <= band k out <= 255)
          (data (rgba_sample 128)) (data (sanitize_image (rgba_sample 128))).
Proof.
  apply (sanitize_image_never_darker (rgba_sample 128));
    [apply rgba_sample_wf; lia | reflexivity].
Defined.

(** X11.  A palette image is composited through its palette: each
    pixel comes out as the blend onto white of its palette entry, with
    the entry's alpha.  When every palette entry is opaque, each pixel
    comes out as the colour of its entry. *)
Theorem sanitize_image_palette (img : image) :
  wf_image img -> mode img = P ->
  data (sanitize_image img)
  = map (fun px => composite (palette_entry (palette img) (band 0 px)))
        (data img)
  /\ (Forall (fun e => band 3 e = 255) (palette img) ->
      data (sanitize_image img)
      = map (fun px => firstn 3 (palette_entry (palette img) (band 0 px)))
            (data img)).
Proof.
  intros [Hlen Hpx Hpal] Hm.
  assert (Hdata : data (sanitize_image img)
            = map (fun px => composite (palette_entry (palette img) (band 0 px)))
                  (data img)).
  { rewrite sanitize_image_P_data by assumption.
    rewrite composite_pixels.
    - now rewrite map_map.
    - apply Forall_map. apply Forall_forall. intros px _.
      now apply palette_entry_wf. }
  split; [exact Hdata |].
  intros Hop. rewrite Hdata. apply map_ext. intros px.
  destruct (palette_entry_wf (palette img) (band 0 px) Hpal) as [Hl He].
  assert (Ha : band 3 (palette_entry (palette img) (band 0 px)) = 255).
  { unfold palette_entry.
    destruct (@nth_in_or_default pixel (Z.to_nat (band 0 px)) (palette img)
                [0; 0; 0; 255]) as [Hin | ->]; [| reflexivity].
    rewrite Forall_forall in Hop.
    apply (Hop _ (proj2 (list_elem_of_In _ _) Hin)). }
  destruct (palette_entry (palette img) (band 0 px))
    as [| r [| g [| b [| a [| ? ?]]]]]; try discriminate.
  change (band 3 [r; g; b; a]) with a in Ha. subst a.
  rewrite <- paste_pixel_white by assumption.
  rewrite paste_pixel_opaque by assumption. reflexivity.
Qed.

Lemma sanitize_image_palette_witness :
  data (sanitize_image palette_sample)
  = [[10; 20; 30]; [255; 255; 255]; [127; 127; 127]].
Proof.
  rewrite (proj1 (sanitize_image_palette palette_sample palette_sample_wf
                    eq_refl)).
  reflexivity.
Defined.

Section SortedSizes.
Context {A : Type} (key : A -> Z).

Lemma insert_desc_keys x l :
  map key (insert_desc key x l) = insert_desc (fun z => z) (key x) (map key l).
Proof.
  induction l as [| y l IH]; [reflexivity |].
  cbn [insert_desc map]. destruct (key x <? key y); cbn [map]; now rewrite ?IH.
Qed.

Lemma sorted_desc_keys l :
  map key (sorted_desc key l) = sorted_desc (fun z => z) (map key l).
Proof.
  induction l as [| x l IH]; [reflexivity |].
  cbn [sorted_desc fold_right map]. rewrite insert_desc_keys.
  fold (sorted_desc key l). now rewrite IH.
Qed.

End SortedSizes.

Section SortedUnique.

(** Two lists of numbers sorted largest first with the same members
    are the same list. *)
Lemma sorted_numbers_unique (l l' : list Z) :
  StronglySorted (desc (fun z => z)) l ->
  StronglySorted (desc (fun z => z)) l' ->
  Permutation l l' -> l = l'.
Proof.
  revert l'. induction l as [| a l IH]; intros l' Hs Hs' Hp.
  - now apply Permutation_nil in Hp.
  - destruct l' as [| b l'];
      [apply Permutation_sym, Permutation_nil in Hp; discriminate |].
    apply StronglySorted_inv in Hs as [Hs Ha].
    apply StronglySorted_inv in Hs' as [Hs' Hb].
    assert (Hab : a = b).
    { assert (Hin : In a (b :: l')).
      { apply (Permutation_in _ Hp). now left. }
      assert (Hin' : In b (a :: l)).
      { apply (Permutation_in _ (Permutation_sym Hp)). now left. }
      rewrite Forall_forall in Ha, Hb. unfold desc in *.
      destruct Hin as [-> | Hin]; [reflexivity |].
      destruct Hin' as [-> | Hin']; [reflexivity |].
      apply list_elem_of_In, Hb in Hin. apply list_elem_of_In, Ha in Hin'.
      lia. }
    subst b. f_equal. apply IH; try assumption.
    now apply Permutation_cons_inv in Hp.
Qed.

Lemma sorted_sizes_perm {A : Type} (key : A -> Z) (l l' : list A) :
  Permutation l l' ->
  map key (sorted_desc key l) = map key (sorted_desc key l').
Proof.
  intros Hp. rewrite !sorted_desc_keys.
  apply sorted_numbers_unique; try apply sorted_desc_sorted.
  rewrite !sorted_desc_perm. now apply Permutation_map.
Qed.

Lemma fold_sizes_shift (f : conversion_record -> Z) l a :
  fold_left (fun acc s => acc + f s) l a
  = a + fold_left (fun acc s => acc + f s) l 0.
Proof.
  revert a. induction l as [| x l IH]; intros a; cbn [fold_left]; [lia |].
  rewrite (IH (a + f x)), (IH (0 + f x)). lia.
Qed.

Lemma sum_sizes_cons f x l : sum_sizes f (x :: l) = f x + sum_sizes f l.
Proof.
  unfold sum_sizes. cbn [fold_left]. rewrite fold_sizes_shift. lia.
Qed.

Lemma sum_sizes_perm f l l' :
  Permutation l l' -> sum_sizes f l = sum_sizes f l'.
Proof.
  induction 1 as [| x l l' _ IH | x y l | l l' l'' _ IH1 _ IH2].
  - reflexivity.
  - rewrite !sum_sizes_cons. lia.
  - rewrite !sum_sizes_cons. lia.
  - congruence.
Qed.

Lemma print_summary_eq stats fmt q :
  print_summary stats fmt q
  = Ok {| files_converted := length stats;
          format_shown := match fmt with
                          | VStr "jpeg" => FormatJPEG q
                          | _ => FormatPNG
                          end;
          total_orig := sum_sizes original_size stats;
          total_conv := sum_sizes converted_size stats;
          sign := if sum_sizes converted_size stats
                     - sum_sizes original_size stats >? 0
                  then Grew else Shrank;
          change := Z.abs (sum_sizes converted_size stats
                           - sum_sizes original_size stats);
          top3 := map (fun s => {| top_record := s; top_ratio := spec_ratio s |})
                      (firstn 3 (sorted_desc converted_size stats)) |}.
Proof.
  unfold print_summary. destruct stats as [| r stats]; [reflexivity |].
  rewrite top_entries_ok. reflexivity.
Qed.

End SortedUnique.

(** X12.  The number of files, the format line, the two totals, the
    direction and the size of the change, and the sizes of the records
    listed do not depend on the order of the records. *)
Theorem print_summary_order_independent (stats stats' : list conversion_record)
    (fmt : value) (q : option value) :
  Permutation stats stats' ->
  exists s s',
    print_summary stats fmt q = Ok s
    /\ print_summary stats' fmt q = Ok s'
    /\ files_converted s = files_converted s'
    /\ format_shown s = format_shown s'
    /\ total_orig s = total_orig s'
    /\ total_conv s = total_conv s'
    /\ sign s = sign s'
    /\ change s = change s'
    /\ shown_sizes s = shown_sizes s'.
Proof.
  intros Hp. rewrite !print_summary_eq. do 2 eexists.
  split; [reflexivity |]. split; [reflexivity |].
  unfold shown_sizes. cbn [files_converted format_shown total_orig total_conv
                           sign change top3].
  rewrite !(sum_sizes_perm _ _ _ Hp).
  repeat split.
  - now apply Permutation_length.
  - rewrite !map_map. cbn [top_record].
    rewrite <- !firstn_map. f_equal. now apply sorted_sizes_perm.
Qed.

Lemma print_summary_order_independent_witness :
  exists s s',
    print_summary sample_stats (VStr "png") None = Ok s
    /\ print_summary (rev sample_stats) (VStr "png") None = Ok s'
    /\ total_conv s = total_conv s'
    /\ shown_sizes s = shown_sizes s'.
Proof.
  destruct (print_summary_order_independent sample_stats (rev sample_stats)
              (VStr "png") None (Permutation_rev _))
    as (s & s' & Hs & Hs' & _ & _ & _ & Hc & _ & _ & Hsz).
  exists s, s'. auto.
Defined.


(** ** Names of the files *)

Section Names.
Local Open Scope string_scope.

Lemma rfind_dot_app a : forall b i,
  Py.rfind_dot i (a ++ b)
  = match Py.rfind_dot (i + String.length a) b with
    | Some j => Some j
    | None => Py.rfind_dot i a
    end.
Proof.
  induction a as [| c a IH]; intros b i.
  - rewrite append_nil. cbn. rewrite Nat.add_0_r. now destruct (Py.rfind_dot i b).
  - rewrite append_cons. cbn [Py.rfind_dot String.length]. rewrite IH.
    replace (S i + String.length a)%nat with (i + S (String.length a))%nat by lia.
    now destruct (Py.rfind_dot (i + S (String.length a)) b).
Qed.

Lemma substring_front a : forall b,
  substring 0 (String.length a) (a ++ b) = a.
Proof.
  induction a as [| c a IH]; intros b.
  - rewrite append_nil. now destruct b.
  - rewrite append_cons. cbn. now rewrite IH.
Qed.

Lemma substring_whole b : substring 0 (String.length b) b = b.
Proof. induction b as [| c b IH]; [reflexivity |]. cbn. now rewrite IH. Qed.

Lemma substring_back a : forall b,
  substring (String.length a) (String.length b) (a ++ b) = b.
Proof.
  induction a as [| c a IH]; intros b.
  - rewrite append_nil. apply substring_whole.
  - rewrite append_cons. cbn. apply IH.
Qed.

Lemma substring_split s : forall i, (i <= String.length s)%nat ->
  s = substring 0 i s ++ substring i (String.length s - i) s.
Proof.
  induction s as [| c s IH]; intros i Hi.
  - cbn in Hi. assert (i = 0%nat) by lia. subst. reflexivity.
  - destruct i as [| i].
    + cbn [substring]. rewrite append_nil. cbn [String.length Nat.sub].
      now rewrite substring_whole.
    + cbn [substring String.length Nat.sub]. rewrite append_cons.
      f_equal. apply IH. cbn in Hi. lia.
Qed.

Lemma substring_length s : forall i n, (i + n <= String.length s)%nat ->
  String.length (substring i n s) = n.
Proof.
  induction s as [| c s IH]; intros i n H.
  - cbn in H. assert (i = 0 /\ n = 0)%nat as [-> ->] by lia. reflexivity.
  - destruct i as [| i].
    + destruct n as [| n]; [reflexivity |]. cbn. f_equal. apply IH. cbn in H. lia.
    + cbn. apply IH. cbn in H. lia.
Qed.

Lemma lower_length s : String.length (Py.lower s) = String.length s.
Proof. induction s as [| c s IH]; [reflexivity |]. cbn. now rewrite IH. Qed.

Lemma lower_char_dot c :
  Py.lower_char c = "."%char <-> c = "."%char.
Proof.
  split; [| now intros ->].
  intros H. ascii_split c. reflexivity.
Qed.

(** An accepted extension is a dot and four characters that are not
    dots. *)
Lemma heif_extension_shape e :
  heif_extension e ->
  exists t, e = String "." t /\ String.length t = 4%nat
            /\ forall i, Py.rfind_dot i t = None.
Proof.
  assert (Hc : forall c x, Py.lower_char c = x -> Ascii.eqb x "." = false ->
                           Ascii.eqb c "." = false).
  { intros c x Hx Hd. destruct (Ascii.eqb_spec c ".") as [-> | Hne]; [| reflexivity].
    cbv in Hx. subst x. discriminate. }
  intros [H | H];
    destruct e as [| c0 [| c1 [| c2 [| c3 [| c4 [| c5 e]]]]]];
    cbn [Py.lower] in H; try discriminate H;
    injection H as H0 H1 H2 H3 H4;
    apply (proj1 (lower_char_dot _)) in H0; subst c0;
    (eexists; split; [reflexivity |]; split; [reflexivity |]);
    intros i; cbn [Py.rfind_dot];
    rewrite (Hc c1 _ H1 eq_refl), (Hc c2 _ H2 eq_refl),
            (Hc c3 _ H3 eq_refl), (Hc c4 _ H4 eq_refl); reflexivity.
Qed.

Lemma suffix_index_ext base e :
  base <> EmptyString -> heif_extension e ->
  Py.suffix_index (base ++ e) = Some (String.length base).
Proof.
  intros Hb He. destruct (heif_extension_shape e He) as (t & -> & Hlen & Hdot).
  unfold Py.suffix_index. rewrite rfind_dot_app.
  cbn [Py.rfind_dot]. rewrite Hdot. cbn [Ascii.eqb Bool.eqb].
  rewrite Nat.add_0_l, length_append. cbn [String.length]. rewrite Hlen.
  destruct base as [| c b]; [congruence |]. cbn [String.length].
  destruct (Nat.ltb_spec 0 (S (String.length b))); [| lia].
  destruct (Nat.ltb_spec (S (String.length b)) (S (String.length b) + 5 - 1));
    [reflexivity | lia].
Qed.

Lemma suffix_stem_ext base e :
  base <> EmptyString -> heif_extension e ->
  Py.suffix (base ++ e) = e /\ Py.stem (base ++ e) = base.
Proof.
  intros Hb He. unfold Py.suffix, Py.stem.
  rewrite (suffix_index_ext base e Hb He). split.
  - rewrite length_append.
    replace (String.length base + String.length e - String.length base)%nat
      with (String.length e) by lia.
    apply substring_back.
  - apply substring_front.
Qed.

End Names.

(** X14.  A folder entry is converted exactly when it is a file and its
    name is a non-empty base followed by [.heic] or [.heif] in any mix
    of cases. *)
Theorem eligible_spec (fp : input_file) :
  eligible fp = true
  <-> is_file fp = true
      /\ exists base e, base <> EmptyString /\ heif_extension e
                        /\ name fp = (base ++ e)%string.
Proof.
  unfold eligible. rewrite andb_true_iff. split.
  - intros [Hf Hs]. split; [exact Hf |].
    unfold Py.suffix in Hs.
    destruct (Py.suffix_index (name fp)) as [i |] eqn:Hi; [| discriminate].
    unfold Py.suffix_index in Hi.
    destruct (Py.rfind_dot 0 (name fp)) as [j |]; [| discriminate].
    destruct ((0 <? j)%nat && (j <? String.length (name fp) - 1)%nat) eqn:Hb;
      [| discriminate].
    injection Hi as ->. apply andb_prop in Hb as [H0 H1].
    apply Nat.ltb_lt in H0. apply Nat.ltb_lt in H1.
    exists (substring 0 i (name fp)),
           (substring i (String.length (name fp) - i) (name fp)).
    split; [| split].
    + intros Hnil. apply (f_equal String.length) in Hnil.
      rewrite substring_length in Hnil by lia. cbn in Hnil. lia.
    + unfold heif_extension. apply orb_prop in Hs as [Hs | Hs];
        apply String.eqb_eq in Hs; auto.
    + apply substring_split. lia.
  - intros [Hf (base & e & Hb & He & Hn)]. split; [exact Hf |].
    rewrite Hn. destruct (suffix_stem_ext base e Hb He) as [-> _].
    destruct He as [-> | ->]; reflexivity.
Qed.

(** X15.  The output name of such an entry is its base followed by the
    new extension. *)
Theorem out_path_replaces_extension (fp : input_file) base e ext :
  base <> EmptyString -> heif_extension e ->
  name fp = (base ++ e)%string ->
  out_path ext fp = (base ++ ext)%string.
Proof.
  intros Hb He Hn. unfold out_path. rewrite Hn.
  now destruct (suffix_stem_ext base e Hb He) as [_ ->].
Qed.

Lemma out_path_replaces_extension_witness :
  out_path ".jpg" file_b = "b.jpg"%string.
Proof.
  apply (out_path_replaces_extension file_b "b" ".HEIF" ".jpg").
  - discriminate.
  - right. reflexivity.
  - reflexivity.
Defined.

(** ** The whole batch *)

Section Batch.
Variable save : string -> save_args -> image -> outcome Z.
Variables fmt quality : value.
Variable ext : string.

Lemma convert_one_attempt out fp :
  convert_one save fmt quality ext out fp
  = match attempt save fmt quality ext fp with
    | Ok (orig, written) =>
        Ok (<[out_path ext fp := written]> out,
            {| filename := name fp; original_size := orig;
               converted_size := written |})
    | Raised e => Raised e
    end.
Proof.
  unfold convert_one, attempt.
  destruct (st_size fp) as [n |]; [| reflexivity].
  destruct (decoded fp) as [img |]; [| reflexivity].
  cbn. destruct (save _ _ _) as [sz |]; [| reflexivity].
  cbn. now rewrite lookup_insert_eq.
Qed.

(** The loop, as three folds over the attempts. *)
Lemma convert_loop_folds files : forall out stats term,
  no_interrupt save fmt quality ext files ->
  convert_loop save fmt quality ext files out stats term
  = (Ok (stats ++ records_of save fmt quality ext files),
     outputs_of save fmt quality ext files out,
     term ++ errors_of save fmt quality ext files).
Proof.
  induction files as [| fp files IH]; intros out stats term Hno.
  - cbn. now rewrite !app_nil_r.
  - apply Forall_cons_1 in Hno as [Hfp Hno].
    cbn [convert_loop]. rewrite convert_one_attempt.
    unfold records_of, errors_of, outputs_of in *.
    cbn [flat_map fold_left].
    destruct (attempt save fmt quality ext fp) as [[orig written] | [msg | msg]].
    + rewrite IH by assumption. now rewrite <- app_assoc.
    + rewrite IH by assumption. now rewrite <- app_assoc.
    + now destruct (Hfp msg).
Qed.


Lemma outputs_of_app l1 l2 out :
  outputs_of save fmt quality ext (l1 ++ l2) out
  = outputs_of save fmt quality ext l2 (outputs_of save fmt quality ext l1 out).
Proof. unfold outputs_of. apply fold_left_app. Qed.

(** Nothing is removed from the output folder. *)
Lemma outputs_of_keeps files : forall out k,
  is_Some (out !! k) -> is_Some (outputs_of save fmt quality ext files out !! k).
Proof.
  induction files as [| fp files IH]; intros out k Hk; [exact Hk |].
  cbn [outputs_of fold_left]. apply IH.
  destruct (attempt save fmt quality ext fp) as [[orig written] |]; [| exact Hk].
  rewrite lookup_insert_is_Some. destruct (decide (out_path ext fp = k)); auto.
Qed.

(** A name that no converted file maps to is left as it was. *)
Lemma outputs_of_other files : forall out k,
  Forall (fun fp => out_path ext fp <> k) files ->
  outputs_of save fmt quality ext files out !! k = out !! k.
Proof.
  induction files as [| fp files IH]; intros out k Hk; [reflexivity |].
  apply Forall_cons_1 in Hk as [Hfp Hk].
  cbn [outputs_of fold_left].
  change (fold_left _ files ?o) with (outputs_of save fmt quality ext files o).
  rewrite IH by assumption.
  destruct (attempt save fmt quality ext fp) as [[orig written] |]; [| reflexivity].
  now rewrite lookup_insert_ne.
Qed.

(** The last file written under a name decides what the name holds. *)
Lemma outputs_of_last l fp post out orig written :
  attempt save fmt quality ext fp = Ok (orig, written) ->
  Forall (fun g => out_path ext g <> out_path ext fp) post ->
  outputs_of save fmt quality ext (l ++ fp :: post) out !! out_path ext fp
  = Some written.
Proof.
  intros Hfp Hpost. rewrite outputs_of_app.
  cbn [outputs_of fold_left]. rewrite Hfp.
  change (fold_left _ post ?o) with (outputs_of save fmt quality ext post o).
  rewrite outputs_of_other by assumption.
  apply lookup_insert_eq.
Qed.

Lemma records_of_names files r :
  In r (records_of save fmt quality ext files) ->
  exists fp orig,
    In fp files
    /\ attempt save fmt quality ext fp = Ok (orig, converted_size r)
    /\ r = {| filename := name fp; original_size := orig;
              converted_size := converted_size r |}.
Proof.
  unfold records_of. rewrite in_flat_map. intros (fp & Hfp & Hr).
  destruct (attempt save fmt quality ext fp) as [[orig written] |] eqn:Ha;
    [| contradiction].
  destruct Hr as [<- | []]. exists fp, orig. auto.
Qed.

End Batch.

Section ConvertFiles.

Lemma convert_files_run config w s f0 files :
  dict_get "output_format" config = Some (VStr s) ->
  List.filter eligible (input_dir w) = f0 :: files ->
  convert_files config w
  = (let '(r, out, term) :=
       convert_loop (save_image w) (VStr s) (config_quality config)
         (config_ext (VStr s)) (f0 :: files) (output_dir w) [] (terminal w) in
     (r, set_output w out term)).
Proof.
  intros Hfmt Hfiles. unfold convert_files. rewrite Hfiles.
  unfold subscript. now rewrite Hfmt.
Qed.



(** X17.  Every record of [convert_files] belongs to an eligible entry
    of the input folder, with its name and size, and only the [.jpg]
    and [.png] names of eligible entries change in the output folder. *)
Theorem convert_files_only_eligible (config : dict value) (w : world)
    stats w' :
  convert_files config w = (Ok stats, w') ->
  (forall r, In r stats ->
     exists fp, In fp (input_dir w) /\ eligible fp = true
                /\ filename r = name fp /\ st_size fp = Ok (original_size r))
  /\ (forall k, output_dir w' !! k <> output_dir w !! k ->
        exists fp, In fp (input_dir w) /\ eligible fp = true
                   /\ (k = (Py.stem (name fp) ++ ".jpg")%string
                       \/ k = (Py.stem (name fp) ++ ".png")%string)).
Proof.
  unfold convert_files.
  destruct (List.filter eligible (input_dir w)) as [| f0 l] eqn:Hfiles.
  - unfold input. cbn [stdin set_output]. destruct (stdin w); intros H;
      [discriminate H | injection H as <- <-].
    cbn. split; [intros r [] | intros k Hk; congruence].
  - destruct (subscript config "output_format") as [fmt |]; [| discriminate].
    destruct fmt as [| | | s | |]; try discriminate.
    set (save := save_image w). set (q := match dict_get _ config with
                                           | Some q => q | None => VInt 95 end).
    set (ext := if is_jpeg (VStr s) then _ else _).
    assert (Hext : ext = ".jpg"%string \/ ext = ".png"%string).
    { unfold ext. destruct (is_jpeg (VStr s)); auto. }
    assert (Hel : forall fp, In fp (f0 :: l) ->
                    In fp (input_dir w) /\ eligible fp = true).
    { intros fp Hfp. rewrite <- Hfiles in Hfp. now apply filter_In in Hfp. }
    clearbody ext. revert Hel. generalize (f0 :: l). clear Hfiles f0 l.
    intros files Hel.
    assert (Hgen : forall out st term r out' term',
      convert_loop save (VStr s) q ext files out st term = (Ok r, out', term') ->
      (forall x, In x r -> In x st \/
         exists fp, In fp files /\ filename x = name fp
                    /\ st_size fp = Ok (original_size x))
      /\ (forall k, out' !! k <> out !! k ->
            exists fp, In fp files /\ k = out_path ext fp)).
    { induction files as [| fp files IH]; intros out st term r out' term' H.
      - injection H as <- <- _. split; [auto | congruence].
      - cbn [convert_loop] in H. rewrite convert_one_attempt in H.
        destruct (attempt save (VStr s) q ext fp) as [[orig wr] | [msg | msg]] eqn:Ha;
          [| | discriminate].
        + apply IH in H as [Hr Ho]; [| intros; apply Hel; now right].
          split.
          * intros x Hx. destruct (Hr x Hx) as [Hin | (g & Hg & Hn)].
            -- apply in_app_or in Hin as [Hin | [<- | []]]; [now left |].
               right. exists fp. split; [now left |]. split; [reflexivity |].
               unfold attempt in Ha. cbn.
               destruct (st_size fp); [| discriminate].
               cbn in Ha. destruct (decoded fp); [| discriminate].
               cbn in Ha. destruct (save _ _ _); [| discriminate].
               now injection Ha as -> _.
            -- right. exists g. split; [now right | exact Hn].
          * intros k Hk.
            destruct (decide (out_path ext fp = k)) as [<- | Hne].
            -- exists fp. split; [now left | reflexivity].
            -- destruct (Ho k) as (g & Hg & Hkg).
               ++ now rewrite lookup_insert_ne.
               ++ exists g. split; [now right | exact Hkg].
        + apply IH in H as [Hr Ho]; [| intros; apply Hel; now right].
          split.
          * intros x Hx. destruct (Hr x Hx) as [Hin | (g & Hg & Hn)];
              [now left | right; exists g; split; [now right | exact Hn]].
          * intros k Hk. destruct (Ho k Hk) as (g & Hg & Hkg).
            exists g. split; [now right | exact Hkg]. }
    destruct (convert_loop save (VStr s) q ext files (output_dir w) [] (terminal w))
      as [[r out'] term'] eqn:Hloop.
    intros [= -> <-]. apply Hgen in Hloop as [Hr Ho]. split.
    + intros x Hx. destruct (Hr x Hx) as [[] | (fp & Hfp & Hn & Hs)].
      exists fp. destruct (Hel fp Hfp). auto.
    + intros k Hk. cbn in Hk. destruct (Ho k Hk) as (fp & Hfp & ->).
      exists fp. destruct (Hel fp Hfp). unfold out_path.
      destruct Hext as [-> | ->]; auto.
Qed.

Lemma convert_files_only_eligible_witness :
  Forall (fun r =>
            exists fp, In fp sample_batch /\ eligible fp = true
                       /\ filename r = name fp
                       /\ st_size fp = Ok (original_size r))
         [ {| filename := "a.heic"; original_size := 500000;
              converted_size := 1000 |};
           {| filename := "b.HEIF"; original_size := 300000;
              converted_size := 1000 |} ].
Proof.
  apply List.Forall_forall.
  apply (proj1 (convert_files_only_eligible default_config sample_batch_world
                  [ {| filename := "a.heic"; original_size := 500000;
                       converted_size := 1000 |};
                    {| filename := "b.HEIF"; original_size := 300000;
                       converted_size := 1000 |} ]
                  (snd (convert_files default_config sample_batch_world))
                  eq_refl)).
Defined.

End ConvertFiles.

Section ConvertFilesEdges.



(** X19.  Two files with the same stem, such as [a.heic] and [a.heif],
    are written to the same output name: both are in the records, each
    with the size it was written with, and the output file is the one
    of the later file. *)
Theorem convert_files_last_writer (config : dict value) (w : world)
    (s : string) l first mid second post o1 n1 o2 n2 :
  let fmt := VStr s in
  let quality := config_quality config in
  let ext := config_ext (VStr s) in
  let files := l ++ first :: mid ++ second :: post in
  dict_get "output_format" config = Some (VStr s) ->
  List.filter eligible (input_dir w) = files ->
  no_interrupt (save_image w) fmt quality ext files ->
  Py.stem (name first) = Py.stem (name second) ->
  attempt (save_image w) fmt quality ext first = Ok (o1, n1) ->
  attempt (save_image w) fmt quality ext second = Ok (o2, n2) ->
  Forall (fun g => Py.stem (name g) <> Py.stem (name second)) post ->
  exists stats w',
    convert_files config w = (Ok stats, w')
    /\ In {| filename := name first; original_size := o1; converted_size := n1 |}
          stats
    /\ In {| filename := name second; original_size := o2; converted_size := n2 |}
          stats
    /\ output_dir w' !! out_path ext first = Some n2.
Proof.
  intros fmt quality ext files Hfmt Hfiles Hno Hstem H1 H2 Hpost.
  subst fmt quality ext.
  assert (Hrun : convert_files config w
                 = (Ok (records_of (save_image w) (VStr s) (config_quality config)
                          (config_ext (VStr s)) files),
                    set_output w
                      (outputs_of (save_image w) (VStr s) (config_quality config)
                         (config_ext (VStr s)) files (output_dir w))
                      (terminal w
                       ++ errors_of (save_image w) (VStr s) (config_quality config)
                            (config_ext (VStr s)) files))).
  { destruct files as [| f0 fs] eqn:Hf; [unfold files in Hf; now destruct l |].
    rewrite (convert_files_run config w s f0 fs Hfmt Hfiles).
    now rewrite convert_loop_folds. }
  do 2 eexists. split; [exact Hrun |]. split; [| split].
  - unfold records_of, files. rewrite in_flat_map. exists first.
    split; [apply in_or_app; right; now left |]. cbn beta. rewrite H1. now left.
  - unfold records_of, files. rewrite in_flat_map. exists second.
    split; [| cbn beta; rewrite H2; now left].
    apply in_or_app. right. right. apply in_or_app. right. now left.
  - cbn [output_dir set_output].
    assert (Hp : out_path (config_ext (VStr s)) first
                 = out_path (config_ext (VStr s)) second)
      by (unfold out_path; now rewrite Hstem).
    rewrite Hp. unfold files.
    replace (l ++ first :: mid ++ second :: post)
      with ((l ++ first :: mid) ++ second :: post)
      by (rewrite <- app_assoc; reflexivity).
    apply (outputs_of_last _ _ _ _ _ _ _ _ o2); [exact H2 |].
    eapply Forall_impl; [exact Hpost |].
    intros g Hg Heq. apply Hg. unfold out_path in Heq.
    revert Heq. generalize (Py.stem (name g)) (Py.stem (name second)).
    intros a b Hab. induction a as [| x a IH] in b, Hab |- *.
    + destruct b as [| y b]; [reflexivity |].
      exfalso. apply (f_equal String.length) in Hab.
      rewrite append_nil, append_cons in Hab. cbn [String.length] in Hab.
      rewrite length_append in Hab. lia.
    + destruct b as [| y b].
      * exfalso. apply (f_equal String.length) in Hab.
        rewrite append_nil, append_cons in Hab. cbn [String.length] in Hab.
        rewrite length_append in Hab. lia.
      * rewrite !append_cons in Hab. injection Hab as -> Hab.
        f_equal. now apply IH.
Qed.

Lemma convert_files_last_writer_witness :
  exists stats w',
    convert_files default_config (sample_folder_world [file_a; file_a_heif])
    = (Ok stats, w')
    /\ In {| filename := "a.heic"; original_size := 500000;
             converted_size := 1 |} stats
    /\ In {| filename := "a.heif"; original_size := 700;
             converted_size := 255 |} stats
    /\ output_dir w' !! "a.png"%string = Some 255.
Proof.
  pose proof (convert_files_last_writer default_config
                (sample_folder_world [file_a; file_a_heif])
                "png" [] file_a [] file_a_heif [] 500000 1 700 255) as H.
  cbv zeta in H. apply H.
  - reflexivity.
  - reflexivity.
  - repeat constructor; intros msg; discriminate.
  - reflexivity.
  - reflexivity.
  - reflexivity.
  - constructor.
Defined.

(** X20.  With files to convert, a configuration that has no string
    under [output_format] makes [convert_files] raise before any file is
    touched. *)
Theorem convert_files_no_format (config : dict value) (w : world) :
  List.filter eligible (input_dir w) <> [] ->
  (forall s, dict_get "output_format" config <> Some (VStr s)) ->
  exists msg, convert_files config w = (Raised (Exception msg), w).
Proof.
  intros Hne Hfmt. unfold convert_files.
  destruct (List.filter eligible (input_dir w)); [congruence |].
  unfold subscript.
  destruct (dict_get "output_format" config) as [[| | | s | |] |];
    try (eexists; reflexivity).
  now destruct (Hfmt s).
Qed.

Lemma convert_files_no_format_witness :
  exists msg,
    convert_files [("output_format"%string, VInt 3)] sample_batch_world
    = (Raised (Exception msg), sample_batch_world).
Proof.
  apply (convert_files_no_format [("output_format"%string, VInt 3)]
           sample_batch_world).
  - discriminate.
  - intros s. discriminate.
Defined.

End ConvertFilesEdges.

(** ** Main loop *)

Section MainLoop.

Lemma choose_loop_reads cfg lines r rest :
  choose_loop cfg lines = (r, rest) ->
  exists used, lines = used ++ rest
    /\ (forall c, r = Ok c -> used <> [])
    /\ (r = Ok None ->
        exists pre line, used = pre ++ [line] /\ quit_answer line).
Proof.
  revert r rest. induction lines as [| line lines IH]; intros r rest H.
  - injection H as <- <-. exists []. repeat split; intros; discriminate.
  - cbn [choose_loop] in H.
    destruct (String.eqb_spec (Py.lower (Py.strip line)) "q") as [Hq | _].
    { injection H as <- <-. exists [line]. repeat split.
      - discriminate.
      - intros _. exists [], line. now split. }
    destruct (String.eqb _ "1").
    { destruct (subscript cfg "jpeg_quality").
      - destruct lines as [| qline lines].
        + injection H as <- <-. exists [line].
          repeat split; intros; discriminate.
        + destruct (choose_quality cfg (Py.strip qline));
            injection H as <- <-; exists [line; qline];
            repeat split; intros; discriminate.
      - injection H as <- <-. exists [line].
        repeat split; intros; discriminate. }
    destruct (String.eqb _ "2").
    { injection H as <- <-. exists [line]. repeat split; intros; discriminate. }
    apply IH in H as (used & -> & Hne & Hquit).
    exists (line :: used). repeat split.
    + discriminate.
    + intros Hr. destruct (Hquit Hr) as (pre & l & -> & Hl).
      exists (line :: pre), l. now split.
Qed.

Lemma choose_loop_raises cfg lines e rest v :
  dict_get "jpeg_quality" cfg = Some v ->
  choose_loop cfg lines = (Raised e, rest) -> e = Exception "EOFError".
Proof.
  intros Hv. revert rest. induction lines as [| line lines IH]; intros rest H.
  - now injection H as <- _.
  - cbn [choose_loop] in H.
    destruct (String.eqb _ "q"); [discriminate |].
    destruct (String.eqb _ "1").
    { unfold subscript in H. rewrite Hv in H.
      destruct lines as [| qline lines]; [now injection H as <- _ |].
      unfold choose_quality, subscript in H. rewrite Hv in H.
      destruct (quality_try cfg (Py.strip qline)); discriminate. }
    destruct (String.eqb _ "2"); [discriminate |].
    now apply IH in H.
Qed.

Lemma choose_format_reads w r w' :
  choose_format w = (r, w') ->
  exists used, reads w w' used
    /\ (forall c, r = Ok c -> used <> [])
    /\ (r = Ok None ->
        exists pre line, used = pre ++ [line] /\ quit_answer line)
    /\ (forall e, r = Raised e -> e = Exception "EOFError").
Proof.
  unfold choose_format, reads.
  destruct (choose_loop (load_config w) (stdin w)) as [r0 rest] eqn:Hl.
  pose proof (choose_loop_reads _ _ _ _ Hl) as (used & Hused & Hne & Hq).
  destruct (load_config_has_quality w) as [v Hv].
  pose proof (fun e => choose_loop_raises (load_config w) (stdin w) e rest v Hv)
    as Hraise.
  rewrite Hl in Hraise.
  assert (Hstdin : forall cfg', stdin (save_config cfg' (set_stdin w rest)) = rest).
  { intros cfg'. unfold save_config. now destruct (config_writable _). }
  intros H. exists used.
  destruct r0 as [[cfg' |] | e]; injection H as <- <-;
    rewrite ?Hstdin; cbn [set_stdin stdin];
    (split; [exact Hused |]); (split; [exact Hne |]); (split; [exact Hq |]).
  - discriminate.
  - discriminate.
  - intros e' [= <-]. now apply Hraise.
Qed.

Lemma convert_loop_raises save fmt quality ext files :
  forall out stats term e out' term',
  convert_loop save fmt quality ext files out stats term
  = (Raised e, out', term') ->
  exists msg, e = BaseException msg.
Proof.
  induction files as [| fp files IH]; intros out stats term e out' term' H;
    [discriminate |].
  cbn [convert_loop] in H.
  destruct (convert_one save fmt quality ext out fp) as [[o r] | [msg | msg]].
  - now apply IH in H.
  - now apply IH in H.
  - injection H as <- _ _. now exists msg.
Qed.

Lemma convert_files_reads config w r w' s :
  dict_get "output_format" config = Some (VStr s) ->
  convert_files config w = (r, w') ->
  exists used, reads w w' used
    /\ (forall e, r = Raised e -> end_of_input_or_interrupt e).
Proof.
  intros Hfmt. unfold convert_files, reads.
  destruct (List.filter eligible (input_dir w)) as [| f0 files].
  - unfold input. cbn [stdin set_output].
    destruct (stdin w) as [| line rest] eqn:Hin.
    + intros [= <- <-]. exists []. cbn [stdin set_output]. split; [now rewrite Hin |].
      intros e [= <-]. now left.
    + intros [= <- <-]. exists [line]. cbn [stdin set_stdin]. split; [reflexivity |].
      discriminate.
  - unfold subscript. rewrite Hfmt.
    destruct (convert_loop _ _ _ _ _ _ _ _) as [[r0 out] term] eqn:Hl.
    intros [= <- <-]. exists []. split; [reflexivity |].
    intros e He. subst r0. apply convert_loop_raises in Hl. now right.
Qed.

Lemma choose_format_format w cfg' w' :
  choose_format w = (Ok (Some cfg'), w') ->
  exists s, dict_get "output_format" cfg' = Some (VStr s).
Proof.
  intros H.
  destruct (choose_format_shape w cfg' w' H) as (_ & a & b & extras & -> & _).
  now exists a.
Qed.

(** The loop with enough fuel. *)
Lemma main_loop_ends fuel : forall w shown,
  (length (stdin w) < fuel)%nat ->
  exists r shown' w',
    main_loop fuel w shown = Some (r, shown', w')
    /\ (r = Ok tt ->
        exists pre line, stdin w = pre ++ line :: stdin w' /\ quit_answer line)
    /\ (forall e, r = Raised e -> end_of_input_or_interrupt e).
Proof.
  induction fuel as [| fuel IH]; intros w shown Hfuel; [lia |].
  cbn [main_loop].
  destruct (choose_format w) as [[[config |] | e] w1] eqn:Hc.
  - pose proof (choose_format_reads _ _ _ Hc) as (u1 & Hu1 & Hne1 & _ & _).
    pose proof (Hne1 _ eq_refl) as Hne.
    destruct (choose_format_format _ _ _ Hc) as [s Hs].
    destruct (convert_files config w1) as [[stats | e] w2] eqn:Hf.
    + pose proof (convert_files_reads _ _ _ _ _ Hs Hf) as (u2 & Hu2 & _).
      assert (Hshown : exists shown',
                 (match stats with
                  | _ :: _ =>
                      fmt ← subscript config "output_format";
                      s ← print_summary stats fmt (dict_get "jpeg_quality" config);
                      Ok (shown ++ [s])
                  | [] => Ok shown
                  end) = Ok shown').
      { destruct stats as [| r0 stats]; [eauto |].
        unfold subscript. rewrite Hs.
        destruct (print_summary_returns (r0 :: stats) (VStr s)
                    (dict_get "jpeg_quality" config)) as [sm Hsm].
        cbn [mbind outcome_bind]. unfold mbind, outcome_bind.
        rewrite Hsm. eauto. }
      destruct Hshown as [shown' ->].
      unfold input. destruct (stdin w2) as [| line rest] eqn:Hin.
      * do 3 eexists. split; [reflexivity |]. split; [discriminate |].
        intros e [= <-]. now left.
      * unfold reads in *.
        destruct (IH (set_stdin w2 rest) shown') as (r & sh & w' & Hm & Hq & He).
        { cbn [set_stdin stdin]. rewrite Hu1, Hu2, Hin in Hfuel.
          rewrite !length_app in Hfuel. cbn [length] in Hfuel. lia. }
        exists r, sh, w'. split; [exact Hm |]. split; [| exact He].
        intros Hr. destruct (Hq Hr) as (pre & l & Hpre & Hl).
        cbn [set_stdin stdin] in Hpre.
        exists (u1 ++ u2 ++ line :: pre), l. split; [| exact Hl].
        rewrite Hu1, Hu2, Hin, Hpre. now rewrite <- !app_assoc.
    + pose proof (convert_files_reads _ _ _ _ _ Hs Hf) as (u2 & _ & He).
      do 3 eexists. split; [reflexivity |]. split; [discriminate |].
      intros e' [= <-]. now apply He.
  - pose proof (choose_format_reads _ _ _ Hc) as (u1 & Hu1 & _ & Hq & _).
    destruct (Hq eq_refl) as (pre & line & -> & Hline).
    do 3 eexists. split; [reflexivity |]. split; [| discriminate].
    intros _. exists pre, line. split; [| exact Hline].
    unfold reads in Hu1. now rewrite Hu1, <- app_assoc.
  - pose proof (choose_format_reads _ _ _ Hc) as (u1 & _ & _ & _ & He).
    do 3 eexists. split; [reflexivity |]. split; [discriminate |].
    intros e' [= <-]. left. now apply He.
Qed.

(** More fuel changes nothing. *)
Lemma main_loop_fuel fuel : forall fuel' w shown r,
  main_loop fuel w shown = Some r -> (fuel <= fuel')%nat ->
  main_loop fuel' w shown = Some r.
Proof.
  induction fuel as [| fuel IH]; intros fuel' w shown r H Hle; [discriminate |].
  destruct fuel' as [| fuel']; [lia |].
  cbn [main_loop] in *.
  destruct (choose_format w) as [[[config |] | e] w1]; try exact H.
  destruct (convert_files config w1) as [[stats | e] w2]; try exact H.
  destruct (match stats with [] => _ | _ :: _ => _ end) as [shown' | e];
    try exact H.
  destruct (input w2) as [[l | e] w3]; try exact H.
  apply IH; [exact H | lia].
Qed.

(** One round that ends at the restart prompt. *)
Lemma main_loop_round fuel w shown config w1 stats w2 line rest :
  choose_format w = (Ok (Some config), w1) ->
  convert_files config w1 = (Ok stats, w2) ->
  stdin w2 = line :: rest ->
  main_loop (S fuel) w shown
  = main_loop fuel (set_stdin w2 rest)
      (shown ++ match stats with
                | [] => []
                | _ :: _ =>
                    match subscript config "output_format" with
                    | Ok fmt =>
                        match print_summary stats fmt
                                (dict_get "jpeg_quality" config) with
                        | Ok s => [s]
                        | Raised _ => []
                        end
                    | Raised _ => []
                    end
                end).
Proof.
  intros Hc Hf Hin. cbn [main_loop]. rewrite Hc, Hf.
  destruct (choose_format_format _ _ _ Hc) as [s Hs].
  unfold input. rewrite Hin.
  destruct stats as [| r0 stats]; [now rewrite app_nil_r |].
  unfold subscript. rewrite Hs.
  destruct (print_summary_returns (r0 :: stats) (VStr s)
              (dict_get "jpeg_quality" config)) as [sm Hsm].
  unfold mbind, outcome_bind. rewrite Hsm. reflexivity.
Qed.

Lemma main_loop_quit fuel w shown pre line rest :
  stdin w = pre ++ line :: rest ->
  forallb invalid_choice pre = true ->
  quit_answer line ->
  main_loop (S fuel) w shown = Some (Ok tt, shown, set_stdin w rest).
Proof.
  intros Hin Hpre Hline. cbn [main_loop].
  assert (H : choose_format w = (Ok None, set_stdin w rest)).
  { unfold choose_format. rewrite Hin, choose_loop_skip by assumption.
    cbn [choose_loop]. now rewrite Hline. }
  now rewrite H.
Qed.

End MainLoop.

(** X21.  On every finite input [main] ends.  It ends normally only
    after a quit answer, and leaves unread what follows that answer. *)
Theorem main_ends_with_quit (w : world) :
  exists r shown w',
    main w = Some (r, shown, w')
    /\ (r = Ok tt ->
        exists pre line, stdin w = pre ++ line :: stdin w' /\ quit_answer line).
Proof.
  destruct (main_loop_ends (S (length (stdin w))) w []) as (r & sh & w' & H & Hq & _);
    [lia |].
  exists r, sh, w'. auto.
Qed.



(** X23.  Quitting at the first menu, after any number of invalid
    answers, ends [main] with no summary, with the config file, the
    output folder and the terminal as they were. *)
Theorem main_quit_first (w : world) pre line rest :
  stdin w = pre ++ line :: rest ->
  forallb invalid_choice pre = true ->
  quit_answer line ->
  main w = Some (Ok tt, [], set_stdin w rest).
Proof.
  intros Hin Hpre Hline. unfold main. cbn [main_loop].
  assert (H : choose_format w = (Ok None, set_stdin w rest)).
  { unfold choose_format. rewrite Hin, choose_loop_skip by assumption.
    cbn [choose_loop]. unfold quit_answer in Hline. now rewrite Hline. }
  now rewrite H.
Qed.

Lemma main_quit_first_witness :
  main (sample_run_world ["x"%string; " Q "%string; "1"%string])
  = Some (Ok tt, [], sample_run_world ["1"%string]).
Proof.
  apply (main_quit_first (sample_run_world ["x"%string; " Q "%string; "1"%string])
           ["x"%string] " Q "%string ["1"%string]); reflexivity.
Defined.

Section Rounds.

Lemma save_config_world cfg w :
  config_writable (save_config cfg w) = config_writable w
  /\ input_dir (save_config cfg w) = input_dir w
  /\ save_image (save_config cfg w) = save_image w
  /\ output_dir (save_config cfg w) = output_dir w
  /\ stdin (save_config cfg w) = stdin w
  /\ terminal (save_config cfg w) = terminal w.
Proof.
  unfold save_config. destruct (config_writable w) eqn:E; repeat split; exact E.
Qed.

(** [choose_format] touches the config file and the input lines only. *)
Lemma choose_format_world w r w' :
  choose_format w = (r, w') ->
  input_dir w' = input_dir w /\ save_image w' = save_image w
  /\ output_dir w' = output_dir w /\ terminal w' = terminal w.
Proof.
  unfold choose_format.
  destruct (choose_loop (load_config w) (stdin w)) as [[[c |] | e] rest];
    intros [= <- <-]; try (repeat split; reflexivity).
  destruct (save_config_world c (set_stdin w rest)) as (_ & -> & -> & -> & _ & ->).
  repeat split.
Qed.

Lemma convert_files_empty config w :
  Forall (fun fp => eligible fp = false) (input_dir w) ->
  convert_files config w
  = match stdin w with
    | _ :: rest =>
        (Ok [], set_stdin (set_output w (output_dir w)
                             (terminal w ++ [no_files_message])) rest)
    | [] =>
        (Raised (Exception "EOFError"),
         set_output w (output_dir w) (terminal w ++ [no_files_message]))
    end.
Proof.
  intros Hnone.
  assert (Hf : List.filter eligible (input_dir w) = []).
  { induction (input_dir w) as [| fp l IH]; [reflexivity |].
    apply Forall_cons_1 in Hnone as [Hfp Hl]. cbn [List.filter].
    rewrite Hfp. now apply IH. }
  unfold convert_files. rewrite Hf. unfold input. cbn [stdin set_output].
  now destruct (stdin w).
Qed.

Lemma main_two_rounds w : forall r,
  (exists fuel, main_loop (S fuel) w [] = Some r
                /\ (S fuel <= S (length (stdin w)))%nat) ->
  main w = Some r.
Proof.
  intros r (fuel & H & Hle). unfold main.
  now apply (main_loop_fuel (S fuel)).
Qed.

End Rounds.

(** X24.  With no eligible file in the input folder, a round shows
    the message about the missing files and no summary, leaves the
    output folder as it was, and reads two lines (one in
    [convert_files], one at the restart prompt) before the menu is back,
    where the quit answer ends [main]. *)
Theorem main_empty_folder (w : world) cfg w1 enter1 enter2 line rest :
  choose_format w = (Ok (Some cfg), w1) ->
  stdin w1 = enter1 :: enter2 :: line :: rest ->
  quit_answer line ->
  Forall (fun fp => eligible fp = false) (input_dir w) ->
  exists w',
    main w = Some (Ok tt, [], w')
    /\ config_file w' = config_file w1
    /\ output_dir w' = output_dir w
    /\ terminal w' = terminal w ++ [no_files_message]
    /\ stdin w' = rest.
Proof.
  intros Hc Hin Hq Hnone.
  destruct (choose_format_world _ _ _ Hc) as (Hdir & Hsave & Hout & Hterm).
  destruct (choose_format_reads _ _ _ Hc) as (used & Hused & Hne & _).
  pose proof (Hne _ eq_refl) as Hne'.
  assert (Hf : convert_files cfg w1
               = (Ok [], set_stdin (set_output w1 (output_dir w1)
                                      (terminal w1 ++ [no_files_message]))
                           (enter2 :: line :: rest))).
  { rewrite convert_files_empty by now rewrite Hdir. now rewrite Hin. }
  eexists. split.
  - apply main_two_rounds. exists 1%nat. split.
    + rewrite (main_loop_round 1 w [] cfg w1 [] _ enter2 (line :: rest) Hc Hf eq_refl).
      cbn [app]. apply (main_loop_quit 0 _ [] [] line rest);
        [reflexivity | reflexivity | exact Hq].
    + unfold reads in Hused. rewrite Hused, Hin, length_app. cbn [length].
      destruct used; [congruence | cbn [length]; lia].
  - cbn [set_stdin set_output config_file output_dir terminal stdin].
    rewrite Hout, Hterm. repeat split.
Qed.

Lemma main_empty_folder_witness :
  exists w',
    main (sample_world Absent ["2"%string; EmptyString; EmptyString; "q"%string; "1"%string])
    = Some (Ok tt, [], w')
    /\ terminal w' = [no_files_message]
    /\ stdin w' = ["1"%string].
Proof.
  destruct (main_empty_folder
              (sample_world Absent ["2"%string; EmptyString; EmptyString; "q"%string; "1"%string])
              (dict_set "output_format" (VStr "png") default_config)
              (save_config (dict_set "output_format" (VStr "png") default_config)
                 (sample_world Absent [EmptyString; EmptyString; "q"%string; "1"%string]))
              EmptyString EmptyString "q"%string ["1"%string])
    as (w' & Hm & _ & _ & Ht & Hs).
  - reflexivity.
  - reflexivity.
  - reflexivity.
  - constructor.
  - exists w'. auto.
Defined.


